(** * Cross-venue spread monitor: a shallow embedding of
      [scripts/caculate_profit.py] and the properties of its engine loop.

    Prices are Python floats in the source; they are modelled as exact
    rationals ([Q]), so rounding is abstracted away while zero tests,
    comparisons and the shape of every formula are kept.  Python dicts and
    sets become stdpp's [gmap] and [gset]; the order in which Python
    enumerates a set or the keys of a dict is not fixed by the language for
    sets, so it is a parameter of the development ([IterOrder]). *)

From Stdlib Require Import QArith Qabs Qfield Ascii.
From stdpp Require Import base option list strings pretty gmap sets sorting.

Local Open Scope string_scope.
Local Open Scope list_scope.

(** ** Exceptions and the error monad *)

(** The exceptions the cycle body can meet.  [ZeroDivisionError] and the feed
    errors derive from [Exception]; a task cancellation and a keyboard
    interrupt derive from [BaseException] only. *)
Inductive py_exception :=
  | ZeroDivisionError
  | FeedError (msg : string)
  | CancelledError
  | KeyboardInterrupt.

(** [isinstance(e, Exception)] *)
Definition isinstance_Exception (e : py_exception) : bool :=
  match e with
  | ZeroDivisionError | FeedError _ => true
  | CancelledError | KeyboardInterrupt => false
  end.

(** [str(e)] *)
Definition str (e : py_exception) : string :=
  match e with
  | ZeroDivisionError => "float division by zero"
  | FeedError msg => msg
  | CancelledError => ""
  | KeyboardInterrupt => ""
  end.

Inductive result (A : Type) :=
  | Ok (a : A)
  | Raise (e : py_exception).
Arguments Ok {A} a.
Arguments Raise {A} e.

#[global] Instance result_ret : MRet result := λ A a, Ok a.
#[global] Instance result_bind : MBind result := λ A B f m,
  match m with
  | Ok a => f a
  | Raise e => Raise e
  end.

Definition raises {A} (m : result A) : Prop := ∃ e, m = Raise e.

(** A [for] loop whose body may raise. *)
Fixpoint for_each {A S} (body : S → A → result S) (xs : list A) (s : S) : result S :=
  match xs with
  | [] => mret s
  | x :: xs' => s' ← body s x; for_each body xs' s'
  end.

(** ** Iteration order of sets and dicts *)

Class IterOrder := {
  iter_set : gset string → list string;
  iter_set_perm : ∀ X, iter_set X ≡ₚ elements X
}.

(** One admissible order, used to run the model on concrete inputs. *)
Definition elements_order : IterOrder :=
  {| iter_set := elements; iter_set_perm := λ X, reflexivity (elements X) |}.

(** ** Catalogs *)

(** An entry of [exchange.markets]; [None] stands for a missing key (or a
    stored [None]), which [.get(key, False)] turns into a falsy value. *)
Record market := { swap : option bool; linear : option bool }.

Record exchange := { markets : gmap string market }.

Section Engine.
Context {order : IterOrder}.

(** [for symbol in d] *)
Definition dict_keys {V} (d : gmap string V) : list string := iter_set (dom d).

(** [markets[symbol].get('swap', False) and markets[symbol].get('linear', False)] *)
Definition is_linear_swap (ms : gmap string market) (symbol : string) : bool :=
  match ms !! symbol with
  | Some m => default false (swap m) && default false (linear m)
  | None => false
  end.

(** [[symbol for symbol in exchange.markets if ...]] *)
Definition linear_swap_symbols (ex : exchange) : list string :=
  filter (λ symbol, is_linear_swap (markets ex) symbol = true) (dict_keys (markets ex)).

Definition get_common_pairs (exchange_1 exchange_2 : exchange) : list string :=
  let exchange_1_pairs : gset string := list_to_set (linear_swap_symbols exchange_1) in
  let exchange_2_pairs : gset string := list_to_set (linear_swap_symbols exchange_2) in
  iter_set (exchange_1_pairs ∩ exchange_2_pairs).

(** ** Price table and ingestion *)

(** A ticker as delivered by a venue; [last] may be Python's [None]. *)
Record ticker := { last : option Q }.

(** [.get(symbol, {}).get(exchange_name, None)]: a missing instrument, a
    missing venue and a stored [None] all read as [None]. *)
Definition get_price (tickers_dict : gmap string (gmap string (option Q)))
    (symbol exchange_name : string) : option Q :=
  mjoin (default ∅ (tickers_dict !! symbol) !! exchange_name).

(** The value stored under an (instrument, venue) key, when the key is in
    the table. *)
Definition lookup_entry (price_cache : gmap string (gmap string (option Q)))
    (symbol exchange_name : string) : option (option Q) :=
  inner ← price_cache !! symbol; inner !! exchange_name.

Definition has_entry (price_cache : gmap string (gmap string (option Q)))
    (symbol exchange_name : string) : Prop :=
  is_Some (lookup_entry price_cache symbol exchange_name).

(** Lines 42-44: one ticker written into the table. *)
Definition store_ticker (exchange_name : string)
    (price_cache : gmap string (gmap string (option Q)))
    (item : string * ticker) : gmap string (gmap string (option Q)) :=
  let '(symbol, tk) := item in
  let price_cache :=
    match price_cache !! symbol with
    | Some _ => price_cache
    | None => <[symbol := ∅]> price_cache
    end in
  alter (λ inner, <[exchange_name := last tk]> inner) symbol price_cache.

(** Lines 40-44: the batches of one cycle, venue by venue. *)
Definition store_results (price_cache : gmap string (gmap string (option Q)))
    (batches : list (string * list (string * ticker))) : gmap string (gmap string (option Q)) :=
  foldl (λ cache '(exchange_name, ticker_data),
           foldl (store_ticker exchange_name) cache ticker_data)
        price_cache batches.

(** The quotes of some batches as (instrument, venue, price), in the order
    in which lines 40-44 write them. *)
Definition quotes_of (batches : list (string * list (string * ticker)))
    : list (string * string * option Q) :=
  '(exchange_name, ticker_data) ← batches;
  (λ '(symbol, tk), (symbol, exchange_name, last tk)) <$> ticker_data.

(** The price of the last quote for an (instrument, venue) key, if any. *)
Fixpoint latest_quote (quotes : list (string * string * option Q))
    (symbol exchange_name : string) : option (option Q) :=
  match quotes with
  | [] => None
  | (s, v, p) :: rest =>
      latest_quote rest symbol exchange_name
      ∪ (if decide (s = symbol ∧ v = exchange_name) then Some p else None)
  end.

(** [asyncio.gather]: every result in task order, or the exception of the
    first task (in task order) that failed. *)
Fixpoint gather {A} (tasks : list (result A)) : result (list A) :=
  match tasks with
  | [] => mret []
  | t :: tasks' => r ← t; rs ← gather tasks'; mret (r :: rs)
  end.

(** Lines 31-35: one stream per venue that has qualifying instruments. *)
Definition make_tasks (watch_tickers : string → list string → result (list (string * ticker)))
    (exchanges : list (string * exchange)) : list (string * result (list (string * ticker))) :=
  omap (λ '(exchange_name, ex),
          let symbols := linear_swap_symbols ex in
          if bool_decide (symbols = []) then None
          else Some (exchange_name, watch_tickers exchange_name symbols))
       exchanges.

Definition subscribe_tickers
    (watch_tickers : string → list string → result (list (string * ticker)))
    (exchanges : list (string * exchange))
    (price_cache : gmap string (gmap string (option Q)))
    : result (gmap string (gmap string (option Q))) :=
  let tasks := make_tasks watch_tickers exchanges in
  results ← gather (tasks.*2);
  mret (store_results price_cache (zip (tasks.*1) results)).

(** ** Spread records *)

(** The 7-tuple appended to [spread_data]; [x[6]] is [r_spread_percent]. *)
Record spread_record := {
  r_symbol : string;
  r_exchange_1 : string;
  r_exchange_2 : string;
  r_price_1 : Q;
  r_price_2 : Q;
  r_spread : Q;
  r_spread_percent : Q
}.

(** Truth value of a float: false exactly at zero. *)
Definition truthy (x : Q) : bool := negb (Qeq_bool x 0).

(** Python's [/] on floats. *)
Definition truediv (a b : Q) : result Q :=
  if Qeq_bool b 0 then Raise ZeroDivisionError else Ok (a / b)%Q.

(** Line 83: [(spread / price_2) * 100 if price_2 else 0]. *)
Definition spread_percent_of (spread price_2 : Q) : result Q :=
  if truthy price_2 then q ← truediv spread price_2; mret (q * 100)%Q
  else mret 0%Q.

(** [abs(spread_percent) > 0.5] *)
Definition is_high_spread (spread_percent : Q) : bool :=
  negb (Qle_bool (Qabs spread_percent) (1 # 2)).

(** Lines 78-88: the body of the innermost loop, on the two lists
    [(spread_data, high_spread_data)]. *)
Definition visit_symbol (tickers_dict : gmap string (gmap string (option Q)))
    (exchange_1_name exchange_2_name : string)
    (lists : list spread_record * list spread_record) (symbol : string)
    : result (list spread_record * list spread_record) :=
  let '(spread_data, high_spread_data) := lists in
  match get_price tickers_dict symbol exchange_1_name,
        get_price tickers_dict symbol exchange_2_name with
  | Some price_1, Some price_2 =>
      let spread := (price_1 - price_2)%Q in
      spread_percent ← spread_percent_of spread price_2;
      let record := {| r_symbol := symbol;
                       r_exchange_1 := exchange_1_name;
                       r_exchange_2 := exchange_2_name;
                       r_price_1 := price_1; r_price_2 := price_2;
                       r_spread := spread; r_spread_percent := spread_percent |} in
      let spread_data := spread_data ++ [record] in
      let high_spread_data :=
        if is_high_spread spread_percent then high_spread_data ++ [record]
        else high_spread_data in
      mret (spread_data, high_spread_data)
  | _, _ => mret (spread_data, high_spread_data)
  end.

(** Lines 69-72: the index pairs [i < j] in loop order. *)
Fixpoint venue_pairs (exchange_names : list string) : list (string * string) :=
  match exchange_names with
  | [] => []
  | exchange_1_name :: rest =>
      ((λ exchange_2_name, (exchange_1_name, exchange_2_name)) <$> rest) ++ venue_pairs rest
  end.

(** Lines 65-88. *)
Definition scan_spreads (exchange_names : list string) (exchanges : string → exchange)
    (tickers_dict : gmap string (gmap string (option Q)))
    : result (list spread_record * list spread_record) :=
  for_each (λ lists '(exchange_1_name, exchange_2_name),
              let common_pairs :=
                get_common_pairs (exchanges exchange_1_name) (exchanges exchange_2_name) in
              for_each (visit_symbol tickers_dict exchange_1_name exchange_2_name)
                       common_pairs lists)
           (venue_pairs exchange_names) ([], []).

(** ** Ranking *)

(** [list.sort(key=..., reverse=True)].  CPython reverses the list, runs its
    stable ascending sort and reverses the result; the ascending sort is
    taken here as a stable insertion sort. *)
Definition insert_sorted {A} (key : A → Q) (x : A) : list A → list A :=
  fix go l :=
    match l with
    | [] => [x]
    | y :: l' => if Qle_bool (key x) (key y) then x :: y :: l' else y :: go l'
    end.

Definition stable_sort {A} (key : A → Q) (l : list A) : list A :=
  foldr (insert_sorted key) [] l.

Definition sort_reverse {A} (key : A → Q) (l : list A) : list A :=
  reverse (stable_sort key (reverse l)).

(** Non-decreasing and non-increasing keys along a list. *)
Definition ascending {A} (key : A → Q) : list A → Prop :=
  StronglySorted (λ x y, (key x <= key y)%Q).

Definition descending {A} (key : A → Q) : list A → Prop :=
  StronglySorted (λ x y, (key y <= key x)%Q).

(** The elements of a list whose key equals [k], in list order. *)
Definition ties {A} (key : A → Q) (k : Q) (l : list A) : list A :=
  filter (λ x, Qeq_bool (key x) k = true) l.

(** [key=lambda x: abs(x[6])] *)
Definition rank_key (x : spread_record) : Q := Qabs (r_spread_percent x).

(** ** The engine loop *)

Inductive output :=
  | PrintStatus (rows : list spread_record)
  | PrintError (line : string)
  | Sleep (seconds : Z).

(** What persists across cycles: the price table, the time of the last
    status print, everything put on [high_spread_queue], and the trace of
    prints and pauses. *)
Record engine_state := {
  price_cache : gmap string (gmap string (option Q));
  last_time : Q;
  high_spread_queue : list (list spread_record);
  trace : list output
}.

(** What the outside world supplies to one cycle. *)
Record cycle_env := {
  watch_tickers : string → list string → result (list (string * ticker));
  time_now : Q
}.

(** The keys of [{name: ... for name in exchange_names}], in insertion order. *)
Fixpoint dict_key_order (exchange_names : list string) : list string :=
  match exchange_names with
  | [] => []
  | name :: rest => name :: filter (λ n, n ≠ name) (dict_key_order rest)
  end.

Definition exchanges_items (exchange_names : list string) (exchanges : string → exchange)
    : list (string * exchange) :=
  (λ name, (name, exchanges name)) <$> dict_key_order exchange_names.

(** Lines 101-102. *)
Definition signal_gate (spread_data high_spread_data : list spread_record) : bool :=
  (250 <=? length spread_data)%nat && (3 <=? length high_spread_data)%nat.

Definition initial_state : engine_state :=
  {| price_cache := ∅; last_time := 0; high_spread_queue := []; trace := [] |}.

(** Lines 61-102: the body of the [try].  The state returned with an
    exception is the one reached when it was raised. *)
Definition cycle_body (exchange_names : list string) (exchanges : string → exchange)
    (env : cycle_env) (st : engine_state) : engine_state * result unit :=
  match subscribe_tickers (watch_tickers env)
          (exchanges_items exchange_names exchanges) (price_cache st) with
  | Raise e => (st, Raise e)
  | Ok cache =>
      let st := {| price_cache := cache; last_time := last_time st;
                   high_spread_queue := high_spread_queue st; trace := trace st |} in
      let tickers_dict := cache in
      match scan_spreads exchange_names exchanges tickers_dict with
      | Raise e => (st, Raise e)
      | Ok (spread_data, high_spread_data) =>
          let spread_data := sort_reverse rank_key spread_data in
          let current_time := time_now env in
          let '(last_time', trace') :=
            if Qle_bool 60 (current_time - last_time st)
            then (current_time, trace st ++ [PrintStatus (take 10 spread_data)])
            else (last_time st, trace st) in
          let queue' :=
            if signal_gate spread_data high_spread_data
            then high_spread_queue st ++ [take 3 high_spread_data]
            else high_spread_queue st in
          ({| price_cache := cache; last_time := last_time';
              high_spread_queue := queue'; trace := trace' |}, Ok ())
      end
  end.

(** Lines 104-106: the handler of [except Exception as e]. *)
Definition handle_exception (e : py_exception) (st : engine_state) : engine_state :=
  {| price_cache := price_cache st; last_time := last_time st;
     high_spread_queue := high_spread_queue st;
     trace := trace st ++ [PrintError (String.append "Error: " (str e)); Sleep 5] |}.

(** Where the [while True] loop stands: still looping, or left through an
    exception that no handler matched. *)
Inductive loop_status :=
  | Running (st : engine_state)
  | Propagated (e : py_exception) (st : engine_state).

Definition state_of (status : loop_status) : engine_state :=
  match status with
  | Running st => st
  | Propagated _ st => st
  end.

(** One turn of the [while True] loop. *)
Definition iteration (exchange_names : list string) (exchanges : string → exchange)
    (env : cycle_env) (st : engine_state) : loop_status :=
  match cycle_body exchange_names exchanges env st with
  | (st', Ok _) => Running st'
  | (st', Raise e) =>
      if isinstance_Exception e then Running (handle_exception e st')
      else Propagated e st'
  end.

(** The loop driven through the successive environments [envs]. *)
Fixpoint run_loop (exchange_names : list string) (exchanges : string → exchange)
    (envs : list cycle_env) (st : engine_state) : loop_status :=
  match envs with
  | [] => Running st
  | env :: envs' =>
      match iteration exchange_names exchanges env st with
      | Running st' => run_loop exchange_names exchanges envs' st'
      | Propagated e st' => Propagated e st'
      end
  end.

(** ** The scan as a fold *)

(** The record lines 82-84 build from two present prices, with the
    conditional expression of line 83 read as a total function. *)
Definition record_of (symbol exchange_1_name exchange_2_name : string)
    (price_1 price_2 : Q) : spread_record :=
  {| r_symbol := symbol;
     r_exchange_1 := exchange_1_name;
     r_exchange_2 := exchange_2_name;
     r_price_1 := price_1; r_price_2 := price_2;
     r_spread := (price_1 - price_2)%Q;
     r_spread_percent :=
       (if truthy price_2 then (price_1 - price_2) / price_2 * 100 else 0)%Q |}.

(** What one visit leaves in the two lists. *)
Definition visited (tickers_dict : gmap string (gmap string (option Q)))
    (exchange_1_name exchange_2_name : string)
    (lists : list spread_record * list spread_record) (symbol : string)
    : list spread_record * list spread_record :=
  match get_price tickers_dict symbol exchange_1_name,
        get_price tickers_dict symbol exchange_2_name with
  | Some price_1, Some price_2 =>
      let record := record_of symbol exchange_1_name exchange_2_name price_1 price_2 in
      (lists.1 ++ [record],
       if is_high_spread (r_spread_percent record) then lists.2 ++ [record] else lists.2)
  | _, _ => lists
  end.

(** The two lists after all venue pairs were scanned. *)
Definition scanned (exchange_names : list string) (exchanges : string → exchange)
    (tickers_dict : gmap string (gmap string (option Q)))
    : list spread_record * list spread_record :=
  foldl (λ lists '(exchange_1_name, exchange_2_name),
           foldl (visited tickers_dict exchange_1_name exchange_2_name) lists
                 (get_common_pairs (exchanges exchange_1_name) (exchanges exchange_2_name)))
        ([], []) (venue_pairs exchange_names).




(** Both prices of a record are the ones the snapshot holds. *)
Definition priced_in (tickers_dict : gmap string (gmap string (option Q)))
    (r : spread_record) : Prop :=
  get_price tickers_dict (r_symbol r) (r_exchange_1 r) = Some (r_price_1 r) ∧
  get_price tickers_dict (r_symbol r) (r_exchange_2 r) = Some (r_price_2 r).

(** The test of line 87 on a record. *)
Definition high_spread (r : spread_record) : Prop :=
  is_high_spread (r_spread_percent r) = true.

End Engine.

(** The instruments that a catalog classifies as linear perpetual-style
    contracts: the markets whose [swap] flag and [linear] flag are both
    [True]. *)
Definition linear_perpetuals (ex : exchange) : gset string :=
  dom (filter (λ entry, swap entry.2 = Some true ∧ linear entry.2 = Some true)
              (markets ex)).

(** What the specification asks of a signal batch: the three best-ranked
    records of the high-spread list, under the ranking of the rank step. *)
Definition top_high_spreads (high_spread_data : list spread_record) : list spread_record :=
  take 3 (sort_reverse rank_key high_spread_data).

(** ** Sample venues, catalogs and feeds *)

Definition perpetual : market := {| swap := Some true; linear := Some true |}.
Definition spot_only : market := {| swap := Some false; linear := None |}.

(** The [k]-th instrument of a generated catalog. *)
Definition instrument (k : nat) : string := "S" +:+ pretty k.

(** A catalog of [n] linear perpetual contracts. *)
Definition catalog_of (n : nat) : exchange :=
  {| markets := list_to_map ((λ k, (instrument k, perpetual)) <$> seq 1 n) |}.

(** A stream that quotes the first [n] instruments, the [k]-th one at
    [price venue k], whatever subset was asked for. *)
Definition quoting (price : string → nat → Q) (n : nat)
    : string → list string → result (list (string * ticker)) :=
  λ exchange_name _,
    Ok ((λ k, (instrument k, {| last := Some (price exchange_name k) |})) <$> seq 1 n).

(** Four venues as in [main], 42 common contracts, one price per venue. *)
Definition four_venues : list string := ["binance"; "okx"; "bybit"; "bitget"].

Definition venue_price (exchange_name : string) (k : nat) : Q :=
  if String.eqb exchange_name "okx" then 99
  else if String.eqb exchange_name "bitget" then 50
  else 100.

Definition four_venue_env : cycle_env :=
  {| watch_tickers := quoting venue_price 42; time_now := 1700000000 |}.

Definition four_venue_cycle : engine_state * result unit :=
  cycle_body (order := elements_order) four_venues (λ _, catalog_of 42)
    four_venue_env initial_state.

(** Two venues; the second one quotes the first [n_high] instruments 1%
    lower than the first venue and all the others at the same price. *)
Definition two_venues : list string := ["X"; "Y"].

Definition skew_price (n_high : nat) (exchange_name : string) (k : nat) : Q :=
  if String.eqb exchange_name "Y" && (k <=? n_high)%nat then 99 else 100.

Definition two_venue_env (n n_high : nat) : cycle_env :=
  {| watch_tickers := quoting (skew_price n_high) n; time_now := 1700000000 |}.

Definition two_venue_cycle (n n_high : nat) : engine_state * result unit :=
  cycle_body (order := elements_order) two_venues (λ _, catalog_of n)
    (two_venue_env n n_high) initial_state.

(** Streams that fail: with an [Exception], and with a cancellation. *)
Definition failing_env (e : py_exception) : cycle_env :=
  {| watch_tickers := λ _ _, Raise e; time_now := 1700000000 |}.

(** Small catalogs and a small snapshot. *)
Definition catalog_a : exchange :=
  {| markets := list_to_map [("BTC/USDT:USDT", perpetual); ("ETH/USDT:USDT", perpetual);
                             ("BTC/USDT", spot_only)] |}.
Definition catalog_b : exchange :=
  {| markets := list_to_map [("SOL/USDT:USDT", perpetual); ("XRP/USDT:USDT", perpetual)] |}.

(** A catalog that shares two instruments with [catalog_a], one of them
    listed as an inverse (not linear) swap. *)
Definition catalog_c : exchange :=
  {| markets := list_to_map
       [("BTC/USDT:USDT", perpetual);
        ("ETH/USDT:USDT", {| swap := Some true; linear := Some false |});
        ("SOL/USDT:USDT", perpetual)] |}.

Definition snapshot_one_sided : gmap string (gmap string (option Q)) :=
  {[ "BTC/USDT:USDT" := {[ "X" := Some 100%Q ]};
     "ETH/USDT:USDT" := {[ "X" := Some 100%Q; "Y" := None ]} ]}.

(** ** The status table of [format_ticker_status] *)

(** Python measures a string in code points and Rocq in bytes; instrument
    and venue names are ASCII.  Colorama's escape sequences and Python's
    fixed-point rendering of a float ([f"{x:.8f}"]) are taken as given. *)
Section StatusTable.
Variables (CYAN YELLOW RESET_ALL : string).
Variable format_fixed : nat → Q → string.

Definition newline : string := String (Ascii.ascii_of_nat 10) "".

(** [c * n] for a one-character string [c] *)
Fixpoint repeat_char (c : Ascii.ascii) (n : nat) : string :=
  match n with
  | O => ""
  | S n' => String c (repeat_char c n')
  end.

(** [f"{s:<{width}}"]: padded with spaces on the right, never cut. *)
Definition ljust (width : nat) (s : string) : string :=
  s +:+ repeat_char " "%char (width - String.length s).

(** [max(len(symbol) for symbol, *_ in spread_data) if spread_data else 6] *)
Definition max_symbol_width (spread_data : list spread_record) : nat :=
  match spread_data with
  | [] => 6
  | _ => max_list ((λ r, String.length (r_symbol r)) <$> spread_data)
  end.

Definition header_cell (title : string) (width : nat) : string :=
  YELLOW +:+ ljust width title +:+ RESET_ALL.

Definition table_header (max_symbol_width : nat) : string :=
  header_cell "Symbol" max_symbol_width +:+ "  " +:+
  header_cell "Exchange 1" 10 +:+ "  " +:+
  header_cell "Exchange 2" 10 +:+ "  " +:+
  header_cell "Price 1" 15 +:+ "  " +:+
  header_cell "Price 2" 15 +:+ "  " +:+
  header_cell "Spread" 12 +:+ "  " +:+
  header_cell "Spread %" 12.

Definition table_rule (max_symbol_width : nat) : string :=
  YELLOW +:+ repeat_char "="%char (max_symbol_width + 10 + 10 + 15 * 2 + 12 + 12 + 10)
  +:+ RESET_ALL.

(** Lines 134-148: the line of one record. *)
Definition table_row (max_symbol_width : nat) (r : spread_record) : string :=
  let price_1_str := format_fixed 8 (r_price_1 r) in
  let price_2_str := format_fixed 8 (r_price_2 r) in
  let spread_str := format_fixed 8 (r_spread r) in
  let spread_percent_str := format_fixed 4 (r_spread_percent r) +:+ "%" in
  ljust max_symbol_width (r_symbol r) +:+ "  " +:+
  ljust 10 (r_exchange_1 r) +:+ "  " +:+
  ljust 10 (r_exchange_2 r) +:+ "  " +:+
  ljust 15 price_1_str +:+ "  " +:+
  ljust 15 price_2_str +:+ "  " +:+
  ljust 12 spread_str +:+ "  " +:+
  ljust 12 spread_percent_str.

(** The list [lines] at line 151. *)
Definition status_lines (spread_data : list spread_record) : list string :=
  let width := max_symbol_width spread_data in
  [CYAN +:+ newline +:+ "=== Ticker Status ===" +:+ RESET_ALL;
   table_header width; table_rule width]
  ++ (table_row width <$> spread_data).

Definition format_ticker_status (spread_data : list spread_record) : string :=
  String.concat newline (status_lines spread_data).

End StatusTable.

(** ** The consumer of [get_high_spread] beside the engine loop *)

(** In this part [high_spread_queue] is the queue itself: the engine puts at
    its end and the consumer takes from its front. *)
Definition with_queue (queue : list (list spread_record)) (st : engine_state)
    : engine_state :=
  {| price_cache := price_cache st; last_time := last_time st;
     high_spread_queue := queue; trace := trace st |}.

Definition status_with_queue (queue : list (list spread_record))
    (status : loop_status) : loop_status :=
  match status with
  | Running st => Running (with_queue queue st)
  | Propagated e st => Propagated e (with_queue queue st)
  end.

(** The two tasks of [main]: where the engine loop stands, and the batches
    the consumer has printed so far. *)
Record system_state := {
  engine : loop_status;
  printed : list (list spread_record)
}.

(** Whose turn it is on the event loop. *)
Inductive turn :=
  | EngineTurn (env : cycle_env)
  | ConsumerTurn.

(** Lines 160-162: [await high_spread_queue.get()] takes the batch at the
    front of the queue and prints it; on an empty queue the task stays
    suspended. *)
Definition consumer_turn (sys : system_state) : system_state :=
  match high_spread_queue (state_of (engine sys)) with
  | [] => sys
  | batch :: rest =>
      {| engine := status_with_queue rest (engine sys);
         printed := printed sys ++ [batch] |}
  end.

Section System.
Context {order : IterOrder}.

(** The engine loop goes on from where it stands; a loop that was left
    through an exception takes no further turn. *)
Definition resume (exchange_names : list string) (exchanges : string → exchange)
    (status : loop_status) (envs : list cycle_env) : loop_status :=
  match status with
  | Running st => run_loop exchange_names exchanges envs st
  | Propagated e st => Propagated e st
  end.

Definition engine_turn (exchange_names : list string) (exchanges : string → exchange)
    (env : cycle_env) (sys : system_state) : system_state :=
  {| engine := resume exchange_names exchanges (engine sys) [env];
     printed := printed sys |}.

(** The two tasks interleaved according to [schedule]. *)
Definition run_system (exchange_names : list string) (exchanges : string → exchange)
    (schedule : list turn) (sys : system_state) : system_state :=
  foldl (λ sys t,
           match t with
           | EngineTurn env => engine_turn exchange_names exchanges env sys
           | ConsumerTurn => consumer_turn sys
           end)
        sys schedule.

End System.

(** The environments of the engine's turns in a schedule. *)
Definition engine_turns (schedule : list turn) : list cycle_env :=
  omap (λ t, match t with EngineTurn env => Some env | ConsumerTurn => None end)
       schedule.

(** A record of instrument [symbol] on the pair (X, Y) with the given
    percent, and a list of four with two pairs of equal absolute percent. *)
Definition sample_record (symbol : string) (spread_percent : Q) : spread_record :=
  {| r_symbol := symbol; r_exchange_1 := "X"; r_exchange_2 := "Y";
     r_price_1 := 100; r_price_2 := 100; r_spread := 0;
     r_spread_percent := spread_percent |}.

Definition records_with_ties : list spread_record :=
  [sample_record "A" (3 # 5); sample_record "B" (-2);
   sample_record "C" (- (3 # 5)); sample_record "D" 2].

(** A venue that lists spot markets only, and a stream that fails for it. *)
Definition catalog_spot : exchange :=
  {| markets := {[ "BTC/USDT" := spot_only ]} |}.

Definition quoting_but (broken : string) (price : string → nat → Q) (n : nat)
    : string → list string → result (list (string * ticker)) :=
  λ exchange_name symbols,
    if String.eqb exchange_name broken then Raise (FeedError "no such market")
    else quoting price n exchange_name symbols.


(** * Properties *)

(** ** The error monad and the loops written in it *)

Lemma not_raises_Ok {A} (a : A) : ¬ raises (Ok a).
Proof. intros [e He]. discriminate He. Qed.

Lemma for_each_app {A S} (body : S → A → result S) xs ys s :
  for_each body (xs ++ ys) s = s' ← for_each body xs s; for_each body ys s'.
Proof.
  revert s. induction xs as [|x xs IH]; intros s; simpl; [done|].
  destruct (body s x) as [s1|e]; simpl; [apply IH | done].
Qed.

(** A loop whose body never raises is a left fold. *)
Lemma for_each_pure {A S} (body : S → A → result S) (step : S → A → S) xs s :
  (∀ s x, body s x = Ok (step s x)) →
  for_each body xs s = Ok (foldl step s xs).
Proof.
  intros Hbody. revert s. induction xs as [|x xs IH]; intros s; simpl; [done|].
  rewrite Hbody. simpl. apply IH.
Qed.

(** ** Spread and spread percent *)

Lemma truthy_false_iff (x : Q) : truthy x = false ↔ (x == 0)%Q.
Proof.
  unfold truthy. rewrite negb_false_iff. apply Qeq_bool_iff.
Qed.

Lemma truthy_true_iff (x : Q) : truthy x = true ↔ ¬ (x == 0)%Q.
Proof.
  rewrite <- truthy_false_iff. destruct (truthy x); split; intros; congruence.
Qed.

(** The conditional expression of line 83 as a total function. *)
Lemma spread_percent_of_total (spread price_2 : Q) :
  spread_percent_of spread price_2
  = Ok (if truthy price_2 then spread / price_2 * 100 else 0)%Q.
Proof.
  unfold spread_percent_of, truediv, truthy.
  destruct (Qeq_bool price_2 0); reflexivity.
Qed.

(** C3 (zero guard).  With a zero second price the percent is 0 whatever the
    first price is; otherwise it is [(price_1 - price_2) / price_2 * 100];
    in neither case is an exception raised, in particular never the
    division-by-zero error. *)
Theorem spread_percent_zero_guard (price_1 price_2 : Q) :
  ((price_2 == 0)%Q →
     spread_percent_of (price_1 - price_2) price_2 = Ok 0%Q) ∧
  (¬ (price_2 == 0)%Q →
     spread_percent_of (price_1 - price_2) price_2
     = Ok ((price_1 - price_2) / price_2 * 100)%Q) ∧
  ¬ raises (spread_percent_of (price_1 - price_2) price_2).
Proof.
  rewrite spread_percent_of_total. split; [|split].
  - intros Hz. apply truthy_false_iff in Hz. by rewrite Hz.
  - intros Hnz. apply truthy_true_iff in Hnz. by rewrite Hnz.
  - apply not_raises_Ok.
Qed.

Lemma spread_percent_zero_guard_witness :
  spread_percent_of (100 - 0) 0 = Ok 0%Q ∧
  spread_percent_of (100 - 99) 99 = Ok ((100 - 99) / 99 * 100)%Q.
Proof.
  split.
  - apply (proj1 (spread_percent_zero_guard 100 0)). reflexivity.
  - apply (proj1 (proj2 (spread_percent_zero_guard 100 99))).
    intros H. discriminate H.
Defined.

(** ** The price table *)

Section PriceTable.
Implicit Types (price_cache : gmap string (gmap string (option Q))).
Implicit Types (quotes : list (string * string * option Q)).

Lemma first_some_assoc {B} (a b c : option B) : a ∪ (b ∪ c) = (a ∪ b) ∪ c.
Proof. by destruct a, b, c. Qed.


Lemma lookup_entry_store_ticker price_cache v s tk symbol exchange_name :
  lookup_entry (store_ticker v price_cache (s, tk)) symbol exchange_name
  = if decide (s = symbol ∧ v = exchange_name) then Some (last tk)
    else lookup_entry price_cache symbol exchange_name.
Proof.
  unfold lookup_entry, store_ticker.
  destruct (decide (s = symbol)) as [->|Hs].
  - destruct (price_cache !! symbol) as [inner|] eqn:Hin.
    + rewrite lookup_alter_eq, Hin. simpl. rewrite lookup_insert.
      destruct (decide (v = exchange_name)) as [->|Hv].
      * by rewrite decide_True.
      * by rewrite decide_False by (intros [_ ?]; done).
    + rewrite lookup_alter_eq, lookup_insert_eq. simpl. rewrite lookup_insert.
      destruct (decide (v = exchange_name)) as [->|Hv].
      * by rewrite decide_True.
      * by rewrite decide_False by (intros [_ ?]; done).
  - rewrite decide_False by (intros [? _]; done).
    destruct (price_cache !! s);
      by rewrite lookup_alter_ne, ?lookup_insert_ne.
Qed.

Lemma latest_quote_app quotes1 quotes2 symbol exchange_name :
  latest_quote (quotes1 ++ quotes2) symbol exchange_name
  = latest_quote quotes2 symbol exchange_name
    ∪ latest_quote quotes1 symbol exchange_name.
Proof.
  induction quotes1 as [|[[s v] p] quotes1 IH]; simpl.
  { by rewrite (right_id_L None (∪)). }
  by rewrite IH, first_some_assoc.
Qed.

Lemma lookup_entry_store_batch price_cache v ticker_data symbol exchange_name :
  lookup_entry (foldl (store_ticker v) price_cache ticker_data) symbol exchange_name
  = latest_quote ((λ '(s, tk), (s, v, last tk)) <$> ticker_data) symbol exchange_name
    ∪ lookup_entry price_cache symbol exchange_name.
Proof.
  revert price_cache.
  induction ticker_data as [|[s tk] ticker_data IH]; intros price_cache.
  { simpl. by rewrite (left_id_L None (∪)). }
  rewrite fmap_cons. cbn [foldl latest_quote].
  rewrite IH, lookup_entry_store_ticker, <- first_some_assoc. f_equal.
  case_decide; by destruct (lookup_entry price_cache symbol exchange_name).
Qed.

(** What a key holds after an ingestion step: the last quote of the step for
    that key, and otherwise what it held before. *)
Lemma lookup_entry_store_results price_cache batches symbol exchange_name :
  lookup_entry (store_results price_cache batches) symbol exchange_name
  = latest_quote (quotes_of batches) symbol exchange_name
    ∪ lookup_entry price_cache symbol exchange_name.
Proof.
  unfold store_results, quotes_of. revert price_cache.
  induction batches as [|[v ticker_data] batches IH]; intros price_cache; simpl.
  { by rewrite (left_id_L None (∪)). }
  rewrite IH, lookup_entry_store_batch, latest_quote_app.
  by rewrite first_some_assoc.
Qed.



End PriceTable.

(** ** The rank step *)

Section Sorting.
Context {A : Type} (key : A → Q).

Lemma insert_sorted_perm x l : insert_sorted key x l ≡ₚ x :: l.
Proof.
  induction l as [|y l IH]; simpl; [done|].
  destruct (Qle_bool (key x) (key y)); [done|].
  rewrite IH. apply Permutation_swap.
Qed.

Lemma stable_sort_perm l : stable_sort key l ≡ₚ l.
Proof.
  induction l as [|x l IH]; simpl; [done|].
  by rewrite insert_sorted_perm, IH.
Qed.

Lemma sort_reverse_perm l : sort_reverse key l ≡ₚ l.
Proof.
  unfold sort_reverse.
  by rewrite reverse_Permutation, stable_sort_perm, reverse_Permutation.
Qed.

Lemma insert_sorted_ascending x l :
  ascending key l → ascending key (insert_sorted key x l).
Proof.
  unfold ascending. induction 1 as [|y l Hl IH Hy]; simpl.
  { repeat constructor. }
  destruct (Qle_bool (key x) (key y)) eqn:Hle.
  - apply Qle_bool_iff in Hle. constructor; [by constructor|].
    constructor; [done|].
    eapply Forall_impl; [exact Hy|]. intros z Hz. simpl in Hz.
    by eapply Qle_trans.
  - constructor; [done|].
    rewrite (insert_sorted_perm x l). constructor; [|done].
    apply Qlt_le_weak, Qnot_le_lt. intros Hc.
    apply Qle_bool_iff in Hc. congruence.
Qed.

Lemma stable_sort_ascending l : ascending key (stable_sort key l).
Proof.
  induction l as [|x l IH]; simpl; [constructor|].
  by apply insert_sorted_ascending.
Qed.

Lemma ascending_snoc (R : relation A) l x :
  StronglySorted R l → Forall (λ y, R y x) l → StronglySorted R (l ++ [x]).
Proof.
  induction 1 as [|y l Hl IH Hy]; intros Hx; simpl.
  { repeat constructor. }
  apply Forall_cons in Hx as [Hyx Hx]. constructor; [by apply IH|].
  apply Forall_app. split; [done|]. by constructor.
Qed.

Lemma ascending_reverse l : ascending key l → descending key (reverse l).
Proof.
  unfold ascending, descending. induction 1 as [|x l Hl IH Hx].
  { rewrite reverse_nil. constructor. }
  rewrite reverse_cons. apply ascending_snoc; [done|].
  by apply Forall_reverse.
Qed.

Lemma descending_reverse l : descending key l → ascending key (reverse l).
Proof.
  unfold ascending, descending. induction 1 as [|x l Hl IH Hx].
  { rewrite reverse_nil. constructor. }
  rewrite reverse_cons. apply ascending_snoc; [done|].
  by apply Forall_reverse.
Qed.

Lemma sort_reverse_descending l : descending key (sort_reverse key l).
Proof. apply ascending_reverse, stable_sort_ascending. Qed.

(** An element is inserted in front of the first element whose key is not
    smaller, so it never passes an element with an equal key. *)
Lemma insert_sorted_ties k x l :
  ties key k (insert_sorted key x l) = ties key k (x :: l).
Proof.
  unfold ties. induction l as [|y l IH]; simpl; [done|].
  destruct (Qle_bool (key x) (key y)) eqn:Hle; [done|].
  rewrite (filter_cons _ y), IH, !(filter_cons _ x), (filter_cons _ y).
  destruct (decide (Qeq_bool (key x) k = true)) as [Hx|Hx]; [|done].
  destruct (decide (Qeq_bool (key y) k = true)) as [Hy|Hy]; [|done].
  exfalso. apply Qeq_bool_iff in Hx, Hy.
  assert (Hc : Qle_bool (key x) (key y) = true); [|congruence].
  apply Qle_bool_iff. rewrite Hx, Hy. apply Qle_refl.
Qed.

Lemma stable_sort_ties k l : ties key k (stable_sort key l) = ties key k l.
Proof.
  induction l as [|x l IH]; simpl; [done|].
  rewrite insert_sorted_ties. unfold ties in *.
  by rewrite !(filter_cons _ x), IH.
Qed.

Lemma sort_reverse_ties k l : ties key k (sort_reverse key l) = ties key k l.
Proof.
  unfold sort_reverse, ties.
  rewrite filter_reverse. fold (ties key k (stable_sort key (reverse l))).
  rewrite stable_sort_ties. unfold ties.
  by rewrite filter_reverse, reverse_involutive.
Qed.

Lemma stable_sort_fixes_ascending l : ascending key l → stable_sort key l = l.
Proof.
  unfold ascending. induction 1 as [|x l Hl IH Hx]; simpl; [done|].
  rewrite IH. destruct Hx as [|y l Hxy Hx]; simpl; [done|].
  apply Qle_bool_iff in Hxy. by rewrite Hxy.
Qed.

Lemma sort_reverse_fixes_descending l : descending key l → sort_reverse key l = l.
Proof.
  intros Hl. unfold sort_reverse.
  rewrite stable_sort_fixes_ascending by by apply descending_reverse.
  apply reverse_involutive.
Qed.

End Sorting.

Lemma filter_app_inv {A} (P : A → Prop) `{∀ x, Decision (P x)} (l : list A) k1 k2 :
  filter P l = k1 ++ k2 →
  ∃ l1 l2, l = l1 ++ l2 ∧ filter P l1 = k1 ∧ filter P l2 = k2.
Proof.
  revert k1. induction l as [|x l IH]; intros k1 Hf.
  { symmetry in Hf. apply app_eq_nil in Hf as [-> ->]. by exists [], []. }
  rewrite filter_cons in Hf. destruct (decide (P x)) as [Hx|Hx].
  - destruct k1 as [|y k1].
    + exists [], (x :: l). simpl in Hf. subst k2.
      split; [done|]. split; [done|]. by rewrite filter_cons_True.
    + injection Hf as <- Hf. destruct (IH _ Hf) as (l1 & l2 & -> & H1 & H2).
      exists (x :: l1), l2. split; [done|]. split; [|done].
      by rewrite filter_cons_True, H1.
  - destruct (IH _ Hf) as (l1 & l2 & -> & H1 & H2).
    exists (x :: l1), l2. split; [done|]. split; [|done].
    by rewrite filter_cons_False.
Qed.

(** C4 (rank step).  The sort of line 91 returns the records it was given,
    in non-increasing order of [|spread_percent|]; the records that share
    one value of [|spread_percent|] come out in the order in which they went
    in, so that of two records with equal [|spread_percent|] the one
    discovered first still comes first; and sorting the result again changes
    nothing. *)
Theorem rank_step_sorted_and_stable (spread_data : list spread_record) :
  sort_reverse rank_key spread_data ≡ₚ spread_data ∧
  StronglySorted
    (λ x y, (Qabs (r_spread_percent y) <= Qabs (r_spread_percent x))%Q)
    (sort_reverse rank_key spread_data) ∧
  (∀ k, filter (λ r, Qeq_bool (Qabs (r_spread_percent r)) k = true)
               (sort_reverse rank_key spread_data)
        = filter (λ r, Qeq_bool (Qabs (r_spread_percent r)) k = true) spread_data) ∧
  (∀ x y before between after,
     spread_data = before ++ x :: between ++ y :: after →
     (Qabs (r_spread_percent x) == Qabs (r_spread_percent y))%Q →
     ∃ before' between' after',
       sort_reverse rank_key spread_data
       = before' ++ x :: between' ++ y :: after') ∧
  sort_reverse rank_key (sort_reverse rank_key spread_data)
  = sort_reverse rank_key spread_data.
Proof.
  assert (Hties : ∀ k,
    filter (λ r, Qeq_bool (Qabs (r_spread_percent r)) k = true)
           (sort_reverse rank_key spread_data)
    = filter (λ r, Qeq_bool (Qabs (r_spread_percent r)) k = true) spread_data).
  { intros k. exact (sort_reverse_ties rank_key k spread_data). }
  split; [apply sort_reverse_perm|].
  split; [exact (sort_reverse_descending rank_key spread_data)|].
  split; [exact Hties|]. split.
  - intros x y before between after Hsplit Heq.
    pose proof (Hties (Qabs (r_spread_percent x))) as Hk.
    set (tie := λ r : spread_record,
           Qeq_bool (Qabs (r_spread_percent r)) (Qabs (r_spread_percent x)) = true)
      in Hk.
    assert (Hx : tie x) by (apply Qeq_bool_iff; reflexivity).
    assert (Hy : tie y) by (apply Qeq_bool_iff; by symmetry).
    rewrite Hsplit in Hk at 2.
    rewrite filter_app, (filter_cons_True _ x) in Hk by done.
    rewrite filter_app, (filter_cons_True _ y) in Hk by done.
    apply filter_app_inv in Hk as (m1 & mx & Hsorted & _ & Hk).
    destruct mx as [|x' mx]; [done|]. rewrite filter_cons in Hk.
    assert (Hfirst : ∀ (l : list spread_record) z rest,
              filter tie l = z :: rest →
              ∃ l1 l2, l = l1 ++ z :: l2 ∧ filter tie l2 = rest).
    { clear. intros l z rest Hl.
      apply (filter_app_inv tie l [z] rest) in Hl as (l1 & l2 & -> & H1 & H2).
      induction l1 as [|w l1 IH]; [done|]. rewrite filter_cons in H1.
      destruct (decide (tie w)) as [Hw|Hw].
      - injection H1 as -> H1. exists [], (l1 ++ l2). split; [done|].
        by rewrite filter_app, H1, H2.
      - destruct (IH H1) as (k1 & k2 & Heq & Hk2).
        exists (w :: k1), k2. split; [|done]. simpl. by rewrite Heq. }
    assert (Hmx : ∃ l1 l2, x' :: mx = l1 ++ x :: l2
                           ∧ filter tie l2 = filter tie between ++ y :: filter tie after).
    { apply Hfirst. by rewrite filter_cons. }
    destruct Hmx as (l1 & l2 & Hmx & Hl2).
    apply filter_app_inv in Hl2 as (n1 & n2 & -> & _ & Hn2).
    apply Hfirst in Hn2 as (n3 & n4 & -> & _).
    exists (m1 ++ l1), (n1 ++ n3), n4.
    rewrite Hsorted, Hmx. by rewrite <- !app_assoc.
  - apply sort_reverse_fixes_descending, sort_reverse_descending.
Qed.

Section EngineProperties.
Context {order : IterOrder}.

(** ** Enumerating a set *)

Lemma elem_of_iter_set (X : gset string) s : s ∈ iter_set X ↔ s ∈ X.
Proof. rewrite (iter_set_perm X). apply elem_of_elements. Qed.

Lemma NoDup_iter_set (X : gset string) : NoDup (iter_set X).
Proof. rewrite (iter_set_perm X). apply NoDup_elements. Qed.

Lemma iter_set_empty : iter_set ∅ = [].
Proof.
  apply Permutation_nil_r. rewrite (iter_set_perm ∅). by rewrite elements_empty.
Qed.

(** ** Common-pair index *)

Lemma elem_of_linear_swap_symbols ex s :
  s ∈ linear_swap_symbols ex ↔ is_linear_swap (markets ex) s = true.
Proof.
  unfold linear_swap_symbols, dict_keys.
  rewrite list_elem_of_filter, elem_of_iter_set, elem_of_dom.
  split; [by intros [? _]|]. intros Hq. split; [done|].
  unfold is_linear_swap in Hq. destruct (markets ex !! s); [eauto | done].
Qed.

Lemma elem_of_get_common_pairs exchange_1 exchange_2 s :
  s ∈ get_common_pairs exchange_1 exchange_2 ↔
  is_linear_swap (markets exchange_1) s = true ∧
  is_linear_swap (markets exchange_2) s = true.
Proof.
  unfold get_common_pairs.
  by rewrite elem_of_iter_set, elem_of_intersection, !elem_of_list_to_set,
    !elem_of_linear_swap_symbols.
Qed.

Lemma is_linear_swap_true (ms : gmap string market) s :
  is_linear_swap ms s = true ↔
  ∃ m, ms !! s = Some m ∧ swap m = Some true ∧ linear m = Some true.
Proof.
  unfold is_linear_swap. destruct (ms !! s) as [m|]; [|by split; [|intros (? & ? & _)]].
  split.
  - intros Hm. exists m. split; [done|].
    by destruct (swap m) as [[]|], (linear m) as [[]|].
  - intros (m' & [= <-] & -> & ->). done.
Qed.

Lemma elem_of_linear_perpetuals ex s :
  s ∈ linear_perpetuals ex ↔
  ∃ m, markets ex !! s = Some m ∧ swap m = Some true ∧ linear m = Some true.
Proof.
  unfold linear_perpetuals. rewrite elem_of_dom. unfold is_Some.
  setoid_rewrite map_lookup_filter_Some. simpl. split.
  - intros (m & Hm & Hs & Hl). by exists m.
  - intros (m & Hm & Hs & Hl). by exists m.
Qed.

(** C5 (common pairs).  An instrument is returned exactly when both
    catalogs list it with [swap] and [linear] both [True]; it is returned
    once; the result holds the same instruments as the intersection of the
    two catalogs' linear perpetual contracts; and it is empty when these two
    sets are disjoint, in particular when the catalogs have no instrument in
    common. *)
Theorem get_common_pairs_is_intersection (exchange_1 exchange_2 : exchange) :
  (∀ s, s ∈ get_common_pairs exchange_1 exchange_2 ↔
        ∃ m1 m2,
          markets exchange_1 !! s = Some m1 ∧ markets exchange_2 !! s = Some m2 ∧
          swap m1 = Some true ∧ linear m1 = Some true ∧
          swap m2 = Some true ∧ linear m2 = Some true) ∧
  NoDup (get_common_pairs exchange_1 exchange_2) ∧
  list_to_set (get_common_pairs exchange_1 exchange_2)
    =@{gset string} linear_perpetuals exchange_1 ∩ linear_perpetuals exchange_2 ∧
  (linear_perpetuals exchange_1 ## linear_perpetuals exchange_2 →
     get_common_pairs exchange_1 exchange_2 = []) ∧
  (dom (markets exchange_1) ## dom (markets exchange_2) →
     get_common_pairs exchange_1 exchange_2 = []).
Proof.
  assert (Hmem : ∀ s, s ∈ get_common_pairs exchange_1 exchange_2 ↔
            s ∈ linear_perpetuals exchange_1 ∧ s ∈ linear_perpetuals exchange_2).
  { intros s.
    by rewrite elem_of_get_common_pairs, !is_linear_swap_true,
      !elem_of_linear_perpetuals. }
  assert (Hempty : linear_perpetuals exchange_1 ## linear_perpetuals exchange_2 →
            get_common_pairs exchange_1 exchange_2 = []).
  { intros Hdisj. apply elem_of_nil_inv. intros s Hs.
    apply Hmem in Hs as [H1 H2]. by apply (Hdisj s). }
  split; [|split; [apply NoDup_iter_set|split; [|split; [exact Hempty|]]]].
  - intros s. rewrite Hmem, !elem_of_linear_perpetuals. split.
    + intros [(m1 & H1 & Hs1 & Hl1) (m2 & H2 & Hs2 & Hl2)]. by exists m1, m2.
    + intros (m1 & m2 & H1 & H2 & Hs1 & Hl1 & Hs2 & Hl2).
      split; [by exists m1 | by exists m2].
  - apply set_eq. intros s.
    by rewrite elem_of_list_to_set, Hmem, elem_of_intersection.
  - intros Hdisj. apply Hempty. intros s H1 H2. apply (Hdisj s).
    + apply elem_of_linear_perpetuals in H1 as (m & Hm & _).
      apply elem_of_dom. by exists m.
    + apply elem_of_linear_perpetuals in H2 as (m & Hm & _).
      apply elem_of_dom. by exists m.
Qed.

(** ** The scan over venue pairs and instruments *)

Lemma visit_symbol_visited tickers_dict e1 e2 lists symbol :
  visit_symbol tickers_dict e1 e2 lists symbol
  = Ok (visited tickers_dict e1 e2 lists symbol).
Proof.
  unfold visit_symbol, visited. destruct lists as [spread_data high_spread_data].
  destruct (get_price tickers_dict symbol e1) as [price_1|]; [|done].
  destruct (get_price tickers_dict symbol e2) as [price_2|]; [|done].
  by rewrite spread_percent_of_total.
Qed.

Lemma scan_spreads_scanned exchange_names exchanges tickers_dict :
  scan_spreads exchange_names exchanges tickers_dict
  = Ok (scanned exchange_names exchanges tickers_dict).
Proof.
  unfold scan_spreads, scanned. apply for_each_pure.
  intros lists [e1 e2]. apply for_each_pure. intros. apply visit_symbol_visited.
Qed.

(** A property of the pair of lists that every visit keeps holds of the
    scan's result. *)
Lemma scanned_ind (P : list spread_record * list spread_record → Prop)
    exchange_names exchanges tickers_dict :
  P ([], []) →
  (∀ e1 e2 lists symbol, P lists → P (visited tickers_dict e1 e2 lists symbol)) →
  P (scanned exchange_names exchanges tickers_dict).
Proof.
  intros Hnil Hstep. unfold scanned.
  generalize (venue_pairs exchange_names), Hnil.
  generalize (@nil spread_record, @nil spread_record).
  intros lists pairs. revert lists.
  induction pairs as [|[e1 e2] pairs IH]; intros lists Hl; simpl; [done|].
  apply IH.
  generalize (get_common_pairs (exchanges e1) (exchanges e2)). intros symbols.
  revert lists Hl. induction symbols as [|s symbols IHs]; intros lists Hl; simpl; [done|].
  by apply IHs, Hstep.
Qed.

Lemma scanned_priced exchange_names exchanges tickers_dict :
  Forall (priced_in tickers_dict) (scanned exchange_names exchanges tickers_dict).1.
Proof.
  apply (scanned_ind (λ lists, Forall (priced_in tickers_dict) lists.1)); [done|].
  intros e1 e2 [sd hd] symbol Hsd. unfold visited. simpl.
  destruct (get_price tickers_dict symbol e1) as [p1|] eqn:H1; [|done].
  destruct (get_price tickers_dict symbol e2) as [p2|] eqn:H2; [|done].
  simpl. apply Forall_app. split; [done|]. by repeat constructor.
Qed.

(** The high-spread list is the sub-list of the spread list that passes the
    threshold test, in the same order. *)
Lemma scanned_high_filter exchange_names exchanges tickers_dict :
  (scanned exchange_names exchanges tickers_dict).2
  = filter high_spread (scanned exchange_names exchanges tickers_dict).1.
Proof.
  apply (scanned_ind (λ lists, lists.2 = filter high_spread lists.1)); [done|].
  intros e1 e2 [sd hd] symbol Hhd. unfold visited. simpl in *.
  destruct (get_price tickers_dict symbol e1) as [p1|]; [|done].
  destruct (get_price tickers_dict symbol e2) as [p2|]; [|done].
  cbv beta zeta. cbn [fst snd]. set (r := record_of symbol e1 e2 p1 p2).
  rewrite filter_app, Hhd.
  assert (Hr : r_spread_percent r
               = (if truthy p2 then (p1 - p2) / p2 * 100 else 0)%Q) by reflexivity.
  rewrite <- Hr. clear Hr.
  destruct (is_high_spread (r_spread_percent r)) eqn:Hh.
  - by rewrite filter_cons_True.
  - rewrite filter_cons_False; [by rewrite app_nil_r|].
    unfold high_spread. by rewrite Hh.
Qed.

(** C7 (missing data).  When the snapshot has no price for the instrument on
    one of the two venues, the visit leaves both lists as they were and
    raises nothing; when both prices are there it appends one record built
    from them; and every record of a scan carries two prices that the
    snapshot holds. *)
Theorem missing_price_is_skipped tickers_dict exchange_1_name exchange_2_name
    lists symbol :
  (get_price tickers_dict symbol exchange_1_name = None ∨
   get_price tickers_dict symbol exchange_2_name = None →
     visit_symbol tickers_dict exchange_1_name exchange_2_name lists symbol = Ok lists) ∧
  (∀ price_1 price_2,
     get_price tickers_dict symbol exchange_1_name = Some price_1 →
     get_price tickers_dict symbol exchange_2_name = Some price_2 →
     ∃ high_spread_data',
       visit_symbol tickers_dict exchange_1_name exchange_2_name lists symbol
       = Ok (lists.1 ++ [record_of symbol exchange_1_name exchange_2_name price_1 price_2],
             high_spread_data')) ∧
  ¬ raises (visit_symbol tickers_dict exchange_1_name exchange_2_name lists symbol) ∧
  (∀ exchange_names exchanges, ∃ spread_data high_spread_data,
     scan_spreads exchange_names exchanges tickers_dict
     = Ok (spread_data, high_spread_data) ∧
     Forall (priced_in tickers_dict) spread_data).
Proof.
  rewrite visit_symbol_visited. unfold visited.
  split; [|split; [|split]].
  - intros [H|H]; rewrite H; [done|].
    by destruct (get_price tickers_dict symbol exchange_1_name).
  - intros price_1 price_2 H1 H2. rewrite H1, H2. eauto.
  - apply not_raises_Ok.
  - intros exchange_names exchanges.
    pose proof (scanned_priced exchange_names exchanges tickers_dict) as Hp.
    rewrite scan_spreads_scanned.
    destruct (scanned exchange_names exchanges tickers_dict) as [sd hd]. eauto.
Qed.

(** C6 (venue order).  For an instrument priced at [p1] on one venue and
    [p2] on the other, both non-zero, the record that the visit appends for
    the pair taken in one order and the record it appends for the pair taken
    in the other order have opposite spreads; the percents are the spread
    over the second price of each order, [spread / p2 * 100] and
    [-spread / p1 * 100]; these are opposite when the two prices are equal,
    but not for all prices: the percent is not antisymmetric in the venue
    order. *)
Theorem swapped_venues_spread tickers_dict symbol venue_a venue_b lists (p1 p2 : Q) :
  get_price tickers_dict symbol venue_a = Some p1 →
  get_price tickers_dict symbol venue_b = Some p2 →
  ¬ (p1 == 0)%Q → ¬ (p2 == 0)%Q →
  ∃ r r' high high',
    visit_symbol tickers_dict venue_a venue_b lists symbol
    = Ok (lists.1 ++ [r], high) ∧
    visit_symbol tickers_dict venue_b venue_a lists symbol
    = Ok (lists.1 ++ [r'], high') ∧
    r_price_1 r = p1 ∧ r_price_2 r = p2 ∧ r_price_1 r' = p2 ∧ r_price_2 r' = p1 ∧
    r_spread r = (p1 - p2)%Q ∧
    (r_spread r' == - r_spread r)%Q ∧
    (r_spread_percent r == r_spread r / p2 * 100)%Q ∧
    (r_spread_percent r' == - r_spread r / p1 * 100)%Q ∧
    ((p1 == p2)%Q → (r_spread_percent r' == - r_spread_percent r)%Q) ∧
    ¬ (∀ q1 q2 : Q, ¬ (q1 == 0)%Q → ¬ (q2 == 0)%Q →
         (r_spread_percent (record_of symbol venue_b venue_a q2 q1)
          == - r_spread_percent (record_of symbol venue_a venue_b q1 q2))%Q).
Proof.
  intros Ha Hb Hp1 Hp2.
  exists (record_of symbol venue_a venue_b p1 p2),
         (record_of symbol venue_b venue_a p2 p1).
  rewrite !visit_symbol_visited. unfold visited. rewrite Ha, Hb.
  do 2 eexists. split; [reflexivity|]. split; [reflexivity|].
  apply truthy_true_iff in Hp1 as Ht1. apply truthy_true_iff in Hp2 as Ht2.
  simpl. rewrite Ht1, Ht2.
  repeat (split; [done|]).
  split; [ring|]. split; [reflexivity|]. split; [by field|]. split.
  - intros Heq. rewrite Heq. by field.
  - intros Hall.
    assert (H100 : ¬ (100 == 0)%Q) by (intros H; discriminate H).
    assert (H99 : ¬ (99 == 0)%Q) by (intros H; discriminate H).
    specialize (Hall 100%Q 99%Q H100 H99). discriminate Hall.
Qed.

(** ** One cycle *)

Lemma cycle_body_Raise exchange_names exchanges env st e :
  subscribe_tickers (watch_tickers env)
    (exchanges_items exchange_names exchanges) (price_cache st) = Raise e →
  cycle_body exchange_names exchanges env st = (st, Raise e).
Proof. intros Hsub. unfold cycle_body. by rewrite Hsub. Qed.

Lemma cycle_body_Ok exchange_names exchanges env st cache :
  subscribe_tickers (watch_tickers env)
    (exchanges_items exchange_names exchanges) (price_cache st) = Ok cache →
  let lists := scanned exchange_names exchanges cache in
  let ranked := sort_reverse rank_key lists.1 in
  let due := Qle_bool 60 (time_now env - last_time st) in
  cycle_body exchange_names exchanges env st
  = ({| price_cache := cache;
        last_time := if due then time_now env else last_time st;
        high_spread_queue :=
          if signal_gate ranked lists.2
          then high_spread_queue st ++ [take 3 lists.2]
          else high_spread_queue st;
        trace := if due then trace st ++ [PrintStatus (take 10 ranked)]
                 else trace st |}, Ok ()).
Proof.
  intros Hsub. unfold cycle_body. rewrite Hsub, scan_spreads_scanned.
  destruct (scanned exchange_names exchanges cache) as [sd hd]. simpl.
  by destruct (Qle_bool 60 (time_now env - last_time st)).
Qed.

(** The two ways a cycle can end. *)
Lemma cycle_body_cases exchange_names exchanges env st st' outcome :
  cycle_body exchange_names exchanges env st = (st', outcome) →
  (∃ e, outcome = Raise e ∧ st' = st ∧
        subscribe_tickers (watch_tickers env)
          (exchanges_items exchange_names exchanges) (price_cache st) = Raise e) ∨
  (outcome = Ok () ∧
   let lists := scanned exchange_names exchanges (price_cache st') in
   high_spread_queue st'
   = if signal_gate (sort_reverse rank_key lists.1) lists.2
     then high_spread_queue st ++ [take 3 lists.2]
     else high_spread_queue st).
Proof.
  destruct (subscribe_tickers (watch_tickers env)
    (exchanges_items exchange_names exchanges) (price_cache st)) as [cache|e] eqn:Hsub.
  - rewrite (cycle_body_Ok _ _ _ _ _ Hsub). intros [= <- <-]. by right.
  - rewrite (cycle_body_Raise _ _ _ _ _ Hsub). intros [= <- <-]. left. eauto.
Qed.

Lemma signal_gate_spec (spread_data high_spread_data : list spread_record) :
  signal_gate spread_data high_spread_data = true ↔
  (250 ≤ length spread_data)%nat ∧ (3 ≤ length high_spread_data)%nat.
Proof.
  unfold signal_gate. rewrite andb_true_iff, !Nat.leb_le. done.
Qed.

Lemma length_sort_reverse {B} (key : B → Q) l : length (sort_reverse key l) = length l.
Proof. apply Permutation_length, sort_reverse_perm. Qed.

(** C2 (significance gate).  A cycle that raises puts nothing on the queue.
    A cycle that completes puts one batch on the queue exactly when the
    spread list has at least 250 records and the high-spread list at least
    3, and leaves the queue alone otherwise: nothing for 249 and 5, one
    batch for 250 and 3. *)
Theorem signal_batch_iff_gate exchange_names exchanges env st :
  (∀ st' e, cycle_body exchange_names exchanges env st = (st', Raise e) →
     high_spread_queue st' = high_spread_queue st) ∧
  (∀ st', cycle_body exchange_names exchanges env st = (st', Ok ()) →
     ∃ spread_data high_spread_data,
       scan_spreads exchange_names exchanges (price_cache st')
       = Ok (spread_data, high_spread_data) ∧
       ((∃ batch, high_spread_queue st' = high_spread_queue st ++ [batch]) ↔
        (250 ≤ length spread_data)%nat ∧ (3 ≤ length high_spread_data)%nat) ∧
       (¬ ((250 ≤ length spread_data)%nat ∧ (3 ≤ length high_spread_data)%nat) →
        high_spread_queue st' = high_spread_queue st) ∧
       (length spread_data = 249 → length high_spread_data = 5 →
        high_spread_queue st' = high_spread_queue st) ∧
       (length spread_data = 250 → length high_spread_data = 3 →
        high_spread_queue st' = high_spread_queue st ++ [high_spread_data])).
Proof.
  split.
  - intros st' e Hbody.
    apply cycle_body_cases in Hbody as [(e' & _ & -> & _)|[[=] _]]. done.
  - intros st' Hbody.
    apply cycle_body_cases in Hbody as [(e' & [=] & _)|[_ Hq]].
    rewrite scan_spreads_scanned. simpl in Hq.
    destruct (scanned exchange_names exchanges (price_cache st')) as [sd hd].
    exists sd, hd. split; [done|]. simpl in Hq.
    pose proof (signal_gate_spec (sort_reverse rank_key sd) hd) as Hgate.
    rewrite length_sort_reverse in Hgate.
    destruct (signal_gate (sort_reverse rank_key sd) hd).
    + assert (Hyes : (250 ≤ length sd)%nat ∧ (3 ≤ length hd)%nat) by by apply Hgate.
      split; [split; eauto|]. split; [done|]. split; [lia|].
      intros _ Hthree. rewrite Hq. by rewrite take_ge by lia.
    + assert (Hno : ¬ ((250 ≤ length sd)%nat ∧ (3 ≤ length hd)%nat)).
      { intros Hc. apply Hgate in Hc. done. }
      split; [|split; [done|split; [done|lia]]].
      split; [|done]. intros [batch Hb]. rewrite Hq in Hb.
      apply (f_equal length) in Hb. rewrite length_app in Hb. simpl in Hb. lia.
Qed.

(** ** Signal batches *)

Lemma scanned_high_spread exchange_names exchanges tickers_dict :
  Forall high_spread (scanned exchange_names exchanges tickers_dict).2.
Proof.
  rewrite scanned_high_filter. apply Forall_forall. intros r Hr.
  by apply list_elem_of_filter in Hr as [Hr _].
Qed.

Lemma cycle_body_batches exchange_names exchanges env st st' outcome :
  cycle_body exchange_names exchanges env st = (st', outcome) →
  Forall (λ batch, length batch = 3%nat ∧ Forall high_spread batch)
         (high_spread_queue st) →
  Forall (λ batch, length batch = 3%nat ∧ Forall high_spread batch)
         (high_spread_queue st').
Proof.
  intros Hbody Hst.
  apply cycle_body_cases in Hbody as [(e & _ & -> & _)|[_ Hq]]; [done|].
  rewrite Hq. clear Hq.
  pose proof (scanned_high_spread exchange_names exchanges (price_cache st')) as Hhigh.
  destruct (scanned exchange_names exchanges (price_cache st')) as [sd hd].
  simpl in *.
  destruct (signal_gate (sort_reverse rank_key sd) hd) eqn:Hgate; [|done].
  apply signal_gate_spec in Hgate as [_ Hthree].
  apply Forall_app. split; [done|]. constructor; [|done]. split.
  - rewrite length_take. lia.
  - by apply Forall_take.
Qed.

Lemma run_loop_batches exchange_names exchanges envs st :
  Forall (λ batch, length batch = 3%nat ∧ Forall high_spread batch)
         (high_spread_queue st) →
  Forall (λ batch, length batch = 3%nat ∧ Forall high_spread batch)
         (high_spread_queue (state_of (run_loop exchange_names exchanges envs st))).
Proof.
  revert st. induction envs as [|env envs IH]; intros st Hst; simpl; [done|].
  unfold iteration.
  destruct (cycle_body exchange_names exchanges env st) as [st' [[]|e]] eqn:Hbody;
    pose proof (cycle_body_batches _ _ _ _ _ _ Hbody Hst) as Hst'.
  - by apply IH.
  - destruct (isinstance_Exception e); [by apply IH | done].
Qed.

(** C10 (batch size).  Whatever the venues deliver and however long the
    loop runs, every batch on the queue holds exactly three records, and
    each of them passed the threshold test. *)
Theorem every_batch_has_three_records exchange_names exchanges envs :
  Forall (λ batch, length batch = 3%nat ∧ Forall high_spread batch)
    (high_spread_queue
       (state_of (run_loop exchange_names exchanges envs initial_state))).
Proof. apply run_loop_batches. constructor. Qed.

(** ** The outer loop *)

Lemma gather_Raise {B} (tasks : list (result B)) e :
  gather tasks = Raise e → Raise e ∈ tasks.
Proof.
  induction tasks as [|[r|e'] tasks IH]; simpl; [done| |].
  - destruct (gather tasks) as [rs|e'']; simpl; [done|].
    intros [= ->]. right. by apply IH.
  - intros [= ->]. left.
Qed.

(** Only a venue's stream can make the cycle body raise. *)
Lemma cycle_body_Raise_feed exchange_names exchanges env st st' e :
  cycle_body exchange_names exchanges env st = (st', Raise e) →
  st' = st ∧ ∃ exchange_name symbols,
    watch_tickers env exchange_name symbols = Raise e.
Proof.
  intros Hbody.
  apply cycle_body_cases in Hbody as [(e' & [= <-] & -> & Hsub)|[[=] _]].
  split; [done|]. unfold subscribe_tickers in Hsub.
  destruct (gather _) as [rs|e'] eqn:Hg; [done|]. simpl in Hsub.
  injection Hsub as ->. apply gather_Raise in Hg.
  apply list_elem_of_fmap in Hg as ([name task] & Htask & Hin). simpl in Htask.
  subst task. unfold make_tasks in Hin.
  apply list_elem_of_omap in Hin as ([name' ex] & _ & Hsome).
  case_bool_decide; [done|]. injection Hsome as -> Hw. eauto.
Qed.

(** C9 (resilience).  When the cycle body raises an exception of class
    [Exception] (a division by zero, an error of a venue's stream), the loop
    prints the error line, pauses for 5, is still running, and its next turn
    runs the body again on the state the body had reached; a loop whose
    venues only ever raise such exceptions is still running after any number
    of turns, failed or not.  When the body raises a cancellation or a
    keyboard interrupt, which derive from [BaseException] only, nothing is
    printed and the loop is left with that exception: it takes no further
    turn. *)
Theorem loop_survives_exceptions exchange_names exchanges :
  (∀ env st st' e,
     cycle_body exchange_names exchanges env st = (st', Raise e) →
     e = ZeroDivisionError ∨ (∃ msg, e = FeedError msg) →
     iteration exchange_names exchanges env st = Running (handle_exception e st') ∧
     trace (handle_exception e st')
     = trace st ++ [PrintError (String.append "Error: " (str e)); Sleep 5] ∧
     price_cache (handle_exception e st') = price_cache st ∧
     high_spread_queue (handle_exception e st') = high_spread_queue st ∧
     ∀ envs, run_loop exchange_names exchanges (env :: envs) st
             = run_loop exchange_names exchanges envs (handle_exception e st')) ∧
  (∀ envs st,
     (∀ env exchange_name symbols e,
        env ∈ envs → watch_tickers env exchange_name symbols = Raise e →
        e = ZeroDivisionError ∨ (∃ msg, e = FeedError msg)) →
     ∃ st', run_loop exchange_names exchanges envs st = Running st') ∧
  (∀ env st st' e,
     cycle_body exchange_names exchanges env st = (st', Raise e) →
     e = CancelledError ∨ e = KeyboardInterrupt →
     st' = st ∧
     iteration exchange_names exchanges env st = Propagated e st ∧
     ∀ envs, run_loop exchange_names exchanges (env :: envs) st = Propagated e st).
Proof.
  assert (Hclass : ∀ e, e = ZeroDivisionError ∨ (∃ msg, e = FeedError msg) →
            isinstance_Exception e = true).
  { by intros e [->|[msg ->]]. }
  split; [|split].
  - intros env st st' e Hbody He. apply Hclass in He.
    assert (Hit : iteration exchange_names exchanges env st
                  = Running (handle_exception e st')).
    { unfold iteration. by rewrite Hbody, He. }
    apply cycle_body_Raise_feed in Hbody as [-> _].
    split; [done|]. repeat (split; [done|]).
    intros envs. simpl. by rewrite Hit.
  - intros envs. induction envs as [|env envs IH]; intros st Hfeed; simpl; [eauto|].
    assert (Hrest : ∀ st1, ∃ st', run_loop exchange_names exchanges envs st1 = Running st').
    { intros st1. apply IH. intros env' name symbols e Hin. apply Hfeed. by right. }
    unfold iteration.
    destruct (cycle_body exchange_names exchanges env st) as [st1 [[]|e]] eqn:Hbody;
      [apply Hrest|].
    apply cycle_body_Raise_feed in Hbody as [_ (name & symbols & Hw)].
    rewrite (Hclass e); [apply Hrest|]. apply (Hfeed env name symbols e); [left|done].
  - intros env st st' e Hbody He.
    assert (Hnot : isinstance_Exception e = false) by by destruct He as [->| ->].
    assert (Hit : iteration exchange_names exchanges env st = Propagated e st').
    { unfold iteration. by rewrite Hbody, Hnot. }
    apply cycle_body_Raise_feed in Hbody as [-> _].
    split; [done|]. split; [done|]. intros envs. simpl. by rewrite Hit.
Qed.

(** ** Where the entries of the price table come from *)

Lemma gather_Ok {B} (tasks : list (string * result B)) results :
  gather (tasks.*2) = Ok results →
  Forall (λ '(exchange_name, r), (exchange_name, Ok r) ∈ tasks) (zip (tasks.*1) results).
Proof.
  revert results. induction tasks as [|[v t] tasks IH]; intros results.
  { simpl. intros [= <-]. constructor. }
  rewrite !fmap_cons. cbn [gather fst snd].
  destruct t as [r|e]; [|by simpl].
  destruct (gather (tasks.*2)) as [rs|e] eqn:Hg; [|by simpl].
  simpl. intros [= <-]. constructor; [left|].
  eapply Forall_impl; [by apply IH|]. intros [v' r'] Hin. by right.
Qed.

(** Each batch written in a cycle is what the stream of its venue returned. *)
Lemma subscribe_tickers_batches watch exchanges cache cache' :
  subscribe_tickers watch exchanges cache = Ok cache' →
  ∃ batches, cache' = store_results cache batches ∧
    Forall (λ '(exchange_name, ticker_data),
              ∃ symbols, watch exchange_name symbols = Ok ticker_data) batches.
Proof.
  unfold subscribe_tickers.
  destruct (gather _) as [results|e] eqn:Hg; simpl; [|done].
  intros [= <-]. eexists. split; [done|].
  eapply Forall_impl; [by apply gather_Ok|].
  intros [v td] Hin. unfold make_tasks in Hin.
  apply list_elem_of_omap in Hin as ([v' ex] & _ & Hsome).
  case_bool_decide; [done|]. injection Hsome as -> Hw. eauto.
Qed.



End EngineProperties.

(** ** Independence of the enumeration order *)

(** Two enumeration orders give the same common pairs, up to their order. *)
Lemma get_common_pairs_any_order (order1 order2 : IterOrder) exchange_1 exchange_2 :
  get_common_pairs (order := order1) exchange_1 exchange_2
  ≡ₚ get_common_pairs (order := order2) exchange_1 exchange_2.
Proof.
  apply NoDup_Permutation.
  - apply (NoDup_iter_set (order := order1)).
  - apply (NoDup_iter_set (order := order2)).
  - intros s. by rewrite !elem_of_get_common_pairs.
Qed.

(** * The model at work on the sample inputs *)

Example scenario_of_two_venues :
  (two_venue_cycle 1 1).1.(trace)
  = [PrintStatus [{| r_symbol := "S1"; r_exchange_1 := "X"; r_exchange_2 := "Y";
                     r_price_1 := 100; r_price_2 := 99;
                     r_spread := 1; r_spread_percent := 100 # 99 |}]].
Proof. vm_compute. reflexivity. Qed.

(** At 100 on X and 99 on Y: spreads 1 and -1, percents 100/99 and -1. *)
Lemma swapped_venues_spread_witness :
  ∃ r r' high high',
    visit_symbol (price_cache (two_venue_cycle 1 1).1) "X" "Y" ([], []) "S1"
    = Ok ([r], high) ∧
    visit_symbol (price_cache (two_venue_cycle 1 1).1) "Y" "X" ([], []) "S1"
    = Ok ([r'], high') ∧
    (r_spread r' == - r_spread r)%Q ∧
    (r_spread_percent r == 100 # 99)%Q ∧ (r_spread_percent r' == - 1)%Q.
Proof.
  destruct (swapped_venues_spread
              (price_cache (two_venue_cycle 1 1).1) "S1" "X" "Y" ([], []) 100 99)
    as (r & r' & high & high' & Hv & Hv' & _ & _ & _ & _ & Hs & Hs' & Hp & Hp' & _).
  - vm_compute. reflexivity.
  - vm_compute. reflexivity.
  - intros H. discriminate H.
  - intros H. discriminate H.
  - exists r, r', high, high'. split; [exact Hv|]. split; [exact Hv'|].
    split; [exact Hs'|]. rewrite Hp, Hp', Hs. split; reflexivity.
Defined.

(** Four records, two pairs of equal absolute percent: the larger pair comes
    first, and within each pair the record discovered first. *)
Lemma rank_step_sorted_and_stable_witness :
  sort_reverse rank_key records_with_ties
  = [sample_record "B" (-2); sample_record "D" 2;
     sample_record "A" (3 # 5); sample_record "C" (- (3 # 5))] ∧
  ∃ before' between' after',
    sort_reverse rank_key records_with_ties
    = before' ++ sample_record "A" (3 # 5)
        :: between' ++ sample_record "C" (- (3 # 5)) :: after'.
Proof.
  split; [vm_compute; reflexivity|].
  apply (proj1 (proj2 (proj2 (proj2 (rank_step_sorted_and_stable records_with_ties))))
           _ _ [] [sample_record "B" (-2)] [sample_record "D" 2]).
  - reflexivity.
  - vm_compute. reflexivity.
Defined.

(** Catalogs with nothing in common give no pair; of two instruments that
    two catalogs share, the one listed as a linear swap by both is returned
    and the one that one of them lists as an inverse swap is not. *)
Lemma get_common_pairs_is_intersection_witness :
  dom (markets catalog_a) ## dom (markets catalog_b) ∧
  get_common_pairs (order := elements_order) catalog_a catalog_b = [] ∧
  get_common_pairs (order := elements_order) catalog_a catalog_c = ["BTC/USDT:USDT"] ∧
  "BTC/USDT:USDT" ∈ get_common_pairs (order := elements_order) catalog_a catalog_c ∧
  "ETH/USDT:USDT" ∉ get_common_pairs (order := elements_order) catalog_a catalog_c.
Proof.
  assert (Hdisj : dom (markets catalog_a) ## dom (markets catalog_b)).
  { apply (bool_decide_unpack _). vm_compute. exact I. }
  destruct (get_common_pairs_is_intersection (order := elements_order)
              catalog_a catalog_b) as (_ & _ & _ & _ & Hempty).
  destruct (get_common_pairs_is_intersection (order := elements_order)
              catalog_a catalog_c) as (Hmem & _).
  split; [exact Hdisj|]. split; [exact (Hempty Hdisj)|].
  split; [vm_compute; reflexivity|]. split.
  - apply Hmem. exists perpetual, perpetual. by repeat split.
  - intros (m1 & m2 & _ & H2 & _ & _ & _ & Hl2)%Hmem.
    vm_compute in H2. injection H2 as <-. discriminate Hl2.
Defined.

(** An instrument priced on one venue only, and one whose second price is
    [None], are passed over. *)
Lemma missing_price_is_skipped_witness :
  get_price snapshot_one_sided "BTC/USDT:USDT" "Y" = None ∧
  visit_symbol snapshot_one_sided "X" "Y" ([], []) "BTC/USDT:USDT" = Ok ([], []) ∧
  get_price snapshot_one_sided "ETH/USDT:USDT" "Y" = None ∧
  visit_symbol snapshot_one_sided "X" "Y" ([], []) "ETH/USDT:USDT" = Ok ([], []).
Proof.
  split; [reflexivity|]. split.
  - apply (proj1 (missing_price_is_skipped (order := elements_order)
                    snapshot_one_sided "X" "Y" ([], []) "BTC/USDT:USDT")).
    right. reflexivity.
  - split; [reflexivity|].
    apply (proj1 (missing_price_is_skipped (order := elements_order)
                    snapshot_one_sided "X" "Y" ([], []) "ETH/USDT:USDT")).
    right. reflexivity.
Defined.

(** 250 records of which 3 are high-spread: one batch, made of those 3. *)
Lemma signal_batch_iff_gate_witness :
  (two_venue_cycle 250 3).2 = Ok () ∧
  ∃ spread_data high_spread_data,
    scan_spreads (order := elements_order) two_venues (λ _, catalog_of 250)
      (price_cache (two_venue_cycle 250 3).1) = Ok (spread_data, high_spread_data) ∧
    length spread_data = 250%nat ∧ length high_spread_data = 3%nat ∧
    high_spread_queue (two_venue_cycle 250 3).1 = [high_spread_data].
Proof.
  split; [vm_compute; reflexivity|].
  destruct (proj2 (signal_batch_iff_gate (order := elements_order) two_venues
                     (λ _, catalog_of 250) (two_venue_env 250 3) initial_state)
                  (two_venue_cycle 250 3).1)
    as (sd & hd & Hscan & _ & _ & _ & Hbatch).
  { vm_compute. reflexivity. }
  exists sd, hd. split; [exact Hscan|].
  assert (Hlen : length sd = 250%nat ∧ length hd = 3%nat).
  { vm_compute in Hscan. injection Hscan as <- <-. split; reflexivity. }
  destruct Hlen as [Hsd Hhd]. split; [exact Hsd|]. split; [exact Hhd|].
  exact (Hbatch Hsd Hhd).
Defined.

(** 249 records of which 5 are high-spread: nothing is put on the queue. *)
Example no_batch_below_250_records :
  (two_venue_cycle 249 5).2 = Ok () ∧
  ∃ spread_data high_spread_data,
    scan_spreads (order := elements_order) two_venues (λ _, catalog_of 249)
      (price_cache (two_venue_cycle 249 5).1) = Ok (spread_data, high_spread_data) ∧
    length spread_data = 249%nat ∧ length high_spread_data = 5%nat ∧
    high_spread_queue (two_venue_cycle 249 5).1 = [].
Proof.
  split; [vm_compute; reflexivity|].
  eexists _, _. split; [vm_compute; reflexivity|].
  split; [reflexivity|]. split; [reflexivity|]. vm_compute. reflexivity.
Qed.

(** A venue whose stream fails with an [Exception], three turns in a row. *)
Lemma loop_survives_exceptions_witness :
  cycle_body (order := elements_order) two_venues (λ _, catalog_of 1)
    (failing_env (FeedError "connection lost")) initial_state
  = (initial_state, Raise (FeedError "connection lost")) ∧
  iteration (order := elements_order) two_venues (λ _, catalog_of 1)
    (failing_env (FeedError "connection lost")) initial_state
  = Running (handle_exception (FeedError "connection lost") initial_state) ∧
  (∃ st', run_loop (order := elements_order) two_venues (λ _, catalog_of 1)
            (replicate 3 (failing_env (FeedError "connection lost"))) initial_state
          = Running st') ∧
  run_loop (order := elements_order) two_venues (λ _, catalog_of 1)
    [failing_env KeyboardInterrupt; two_venue_env 1 1] initial_state
  = Propagated KeyboardInterrupt initial_state.
Proof.
  assert (Hbody : cycle_body (order := elements_order) two_venues (λ _, catalog_of 1)
            (failing_env (FeedError "connection lost")) initial_state
          = (initial_state, Raise (FeedError "connection lost"))).
  { vm_compute. reflexivity. }
  assert (Hstop : cycle_body (order := elements_order) two_venues (λ _, catalog_of 1)
            (failing_env KeyboardInterrupt) initial_state
          = (initial_state, Raise KeyboardInterrupt)).
  { vm_compute. reflexivity. }
  destruct (loop_survives_exceptions (order := elements_order) two_venues
              (λ _, catalog_of 1)) as (Hhandled & Hruns & Hleft).
  split; [exact Hbody|]. split; [|split].
  - apply (Hhandled _ _ _ _ Hbody). right. by eexists.
  - apply Hruns. intros env name symbols e Hin Hw.
    apply elem_of_replicate in Hin as [-> _]. simpl in Hw.
    injection Hw as <-. right. by eexists.
  - apply (Hleft _ _ _ _ Hstop). by right.
Defined.

(** A cancellation delivered while the body waits for the venues is not an
    [Exception]: the handler does not match it and the loop is left, so the
    later environments are never consumed. *)
Lemma cancellation_leaves_the_loop :
  (cycle_body (order := elements_order) two_venues (λ _, catalog_of 1)
     (failing_env CancelledError) initial_state).2 = Raise CancelledError ∧
  run_loop (order := elements_order) two_venues (λ _, catalog_of 1)
    [failing_env CancelledError; two_venue_env 1 1] initial_state
  = Propagated CancelledError initial_state ∧
  ¬ ∃ st', run_loop (order := elements_order) two_venues (λ _, catalog_of 1)
             [failing_env CancelledError; two_venue_env 1 1] initial_state
           = Running st'.
Proof.
  assert (Hrun : run_loop (order := elements_order) two_venues (λ _, catalog_of 1)
            [failing_env CancelledError; two_venue_env 1 1] initial_state
          = Propagated CancelledError initial_state).
  { vm_compute. reflexivity. }
  split; [vm_compute; reflexivity|]. split; [exact Hrun|].
  intros [st' Hst']. rewrite Hrun in Hst'. discriminate Hst'.
Qed.

(** C1 (which records are sent), at four venues as in [main] with 42 common
    contracts quoted at 100, 99, 100 and 50.  The cycle passes the gate with
    252 records, 210 of them high-spread, and sends the first three of the
    high-spread list: three records of the pair (binance, okx), the first
    pair scanned, at 100/99 percent.  The three best-ranked high-spread
    records are records of the pair (binance, bitget) at 100 percent, so the
    batch is not the top three. *)
Theorem signal_batch_is_not_top_three :
  ∃ spread_data high_spread_data batch,
    scan_spreads (order := elements_order) four_venues (λ _, catalog_of 42)
      (price_cache four_venue_cycle.1) = Ok (spread_data, high_spread_data) ∧
    length spread_data = 252%nat ∧ length high_spread_data = 210%nat ∧
    high_spread_queue four_venue_cycle.1 = [batch] ∧
    batch = take 3 high_spread_data ∧
    Forall (λ r, r_exchange_1 r = "binance" ∧ r_exchange_2 r = "okx" ∧
                 (r_spread_percent r == 100 # 99)%Q) batch ∧
    Forall (λ r, r_exchange_1 r = "binance" ∧ r_exchange_2 r = "bitget" ∧
                 (r_spread_percent r == 100)%Q) (top_high_spreads high_spread_data) ∧
    batch ≠ top_high_spreads high_spread_data.
Proof.
  eexists _, _, _. split; [vm_compute; reflexivity|].
  split; [reflexivity|]. split; [reflexivity|].
  split; [vm_compute; reflexivity|]. split; [vm_compute; reflexivity|].
  split; [repeat (constructor; [by repeat split|]); constructor|].
  split.
  - vm_compute top_high_spreads.
    repeat (constructor; [by repeat split|]); constructor.
  - vm_compute. intros H. discriminate H.
Qed.

(** * Further properties of the engine *)

(** ** The venue pairs of lines 69-72 *)

Lemma elem_of_venue_pairs (exchange_names : list string) (a b : string) :
  (a, b) ∈ venue_pairs exchange_names ↔
  ∃ i j, (i < j)%nat ∧ exchange_names !! i = Some a ∧ exchange_names !! j = Some b.
Proof.
  induction exchange_names as [|x xs IH]; simpl.
  { split; [by intros ?%not_elem_of_nil|]. by intros (i & j & _ & Hi & _). }
  rewrite elem_of_app, list_elem_of_fmap, IH. split.
  - intros [(b' & [= -> ->] & Hb)|(i & j & Hij & Hi & Hj)].
    + apply list_elem_of_lookup in Hb as [k Hk].
      exists 0%nat, (S k). split; [lia|]. by split.
    + exists (S i), (S j). split; [lia|]. by split.
  - intros (i & j & Hij & Hi & Hj). destruct j as [|j]; [lia|]. simpl in Hj.
    destruct i as [|i]; simpl in Hi.
    + injection Hi as ->. left. exists b. split; [done|].
      apply list_elem_of_lookup. eauto.
    + right. exists i, j. split; [lia|]. by split.
Qed.

(** A pair of venues is visited exactly when the first one stands before the
    second one in the list of names. *)
Theorem venue_pairs_index (exchange_names : list string) (a b : string) :
  (a, b) ∈ venue_pairs exchange_names ↔
  ∃ i j, (i < j)%nat ∧ exchange_names !! i = Some a ∧ exchange_names !! j = Some b.
Proof. apply elem_of_venue_pairs. Qed.

(** [n] venues give [n (n - 1) / 2] pairs. *)
Theorem venue_pairs_count (exchange_names : list string) :
  (2 * length (venue_pairs exchange_names)
   = length exchange_names * (length exchange_names - 1))%nat.
Proof.
  induction exchange_names as [|x xs IH]; simpl; [done|].
  rewrite length_app, length_fmap. nia.
Qed.

(** With distinct names no venue is compared with itself, and no pair is
    visited twice, in either orientation. *)
Theorem venue_pairs_distinct (exchange_names : list string) :
  NoDup exchange_names →
  NoDup (venue_pairs exchange_names) ∧
  ∀ a b, (a, b) ∈ venue_pairs exchange_names →
         a ≠ b ∧ (b, a) ∉ venue_pairs exchange_names.
Proof.
  intros Hnd. split.
  - induction Hnd as [|x xs Hx Hnd IH]; simpl; [constructor|].
    apply NoDup_app. split; [|split; [|done]].
    + apply NoDup_fmap_2; [|done]. by intros ?? [= ->].
    + intros [a b] (b' & [= -> ->] & Hb)%list_elem_of_fmap Hin.
      apply elem_of_venue_pairs in Hin as (i & j & _ & Hi & _).
      apply Hx, list_elem_of_lookup. eauto.
  - intros a b (i & j & Hij & Hi & Hj)%elem_of_venue_pairs. split.
    + intros ->. assert (i = j) by by eapply NoDup_lookup. lia.
    + intros (i' & j' & Hij' & Hi' & Hj')%elem_of_venue_pairs.
      assert (i = j') by by eapply NoDup_lookup.
      assert (j = i') by by eapply NoDup_lookup. lia.
Qed.

Lemma venue_pairs_distinct_witness :
  NoDup (venue_pairs four_venues) ∧ ("okx", "binance") ∉ venue_pairs four_venues.
Proof.
  assert (Hnd : NoDup four_venues).
  { apply (bool_decide_unpack _). vm_compute. exact I. }
  destruct (venue_pairs_distinct four_venues Hnd) as [Hpairs Hone].
  split; [exact Hpairs|].
  apply (Hone "binance" "okx"). vm_compute. left.
Defined.

(** ** The threshold test of line 87 *)

(** A percent is high-spread exactly when it lies outside [-0.5, 0.5]; the
    bounds themselves are not high-spread, and the sign plays no role. *)
Theorem is_high_spread_outside_band (spread_percent : Q) :
  (is_high_spread spread_percent = true ↔
     (spread_percent < - (1 # 2))%Q ∨ (1 # 2 < spread_percent)%Q) ∧
  is_high_spread (- spread_percent) = is_high_spread spread_percent ∧
  is_high_spread (1 # 2) = false ∧ is_high_spread (- (1 # 2)) = false.
Proof.
  assert (Hband : ∀ x : Q, is_high_spread x = true ↔
            (x < - (1 # 2))%Q ∨ (1 # 2 < x)%Q).
  { intros x. unfold is_high_spread.
    rewrite negb_true_iff, <- not_true_iff_false, Qle_bool_iff,
      Qabs_Qle_condition.
    split.
    - intros Hout. destruct (Qlt_le_dec x (- (1 # 2))) as [Hlo|Hlo]; [by left|].
      destruct (Qlt_le_dec (1 # 2) x) as [Hhi|Hhi]; [by right|].
      exfalso. by apply Hout.
    - intros [Hlo|Hhi] [Hge Hle].
      + by apply (Qlt_not_le _ _ Hlo).
      + by apply (Qlt_not_le _ _ Hhi). }
  split; [apply Hband|]. split; [|by split].
  unfold is_high_spread. by rewrite Qabs_opp.
Qed.

(** ** Common pairs, whichever venue comes first *)

(** Swapping the two catalogs gives the same instruments, possibly in
    another order. *)
Theorem get_common_pairs_symmetric {order : IterOrder} (exchange_1 exchange_2 : exchange) :
  get_common_pairs exchange_1 exchange_2 ≡ₚ get_common_pairs exchange_2 exchange_1.
Proof.
  apply NoDup_Permutation; [apply NoDup_iter_set..|].
  intros s. rewrite !elem_of_get_common_pairs. tauto.
Qed.

(** ** The scan of lines 65-88 *)

Lemma foldl_invariant {A B} (P : A → Prop) (f : A → B → A) (l : list B) (a : A) :
  P a → (∀ a x, x ∈ l → P a → P (f a x)) → P (foldl f a l).
Proof.
  revert a. induction l as [|x l IH]; intros a Ha Hf; simpl; [done|].
  apply IH; [apply Hf; [left | done]|].
  intros a' x' Hx'. apply Hf. by right.
Qed.

Section ScanProperties.
Context {order : IterOrder}.

(** Induction over the scan that remembers which pair and which instrument
    each visit is for. *)
Lemma scanned_ind_pairs (P : list spread_record * list spread_record → Prop)
    exchange_names exchanges tickers_dict :
  P ([], []) →
  (∀ e1 e2 lists symbol,
     (e1, e2) ∈ venue_pairs exchange_names →
     symbol ∈ get_common_pairs (exchanges e1) (exchanges e2) →
     P lists → P (visited tickers_dict e1 e2 lists symbol)) →
  P (scanned exchange_names exchanges tickers_dict).
Proof.
  intros Hnil Hstep. unfold scanned. apply foldl_invariant; [done|].
  intros lists [e1 e2] Hpair Hlists. apply foldl_invariant; [done|].
  intros lists' symbol Hsymbol Hlists'. by apply Hstep.
Qed.

(** The high-spread list is the spread list (as discovered, before it is
    sorted) with the records at or below the threshold left out. *)
Theorem high_spread_data_is_filtered exchange_names exchanges tickers_dict :
  ∃ spread_data high_spread_data,
    scan_spreads exchange_names exchanges tickers_dict
    = Ok (spread_data, high_spread_data) ∧
    high_spread_data = filter high_spread spread_data ∧
    high_spread_data `sublist_of` spread_data ∧
    (length high_spread_data ≤ length spread_data)%nat.
Proof.
  rewrite scan_spreads_scanned.
  pose proof (scanned_high_filter exchange_names exchanges tickers_dict) as Hf.
  destruct (scanned exchange_names exchanges tickers_dict) as [sd hd].
  simpl in Hf. subst hd. exists sd, (filter high_spread sd).
  split; [done|]. split; [done|].
  split; [apply sublist_filter|]. apply sublist_length, sublist_filter.
Qed.

(** Every record of a scan belongs to a venue pair of the loop and to an
    instrument common to that pair, carries the two prices of the snapshot,
    their difference as spread, and the percent that line 83 computes from
    that spread and the second price. *)
Theorem spread_records_are_consistent exchange_names exchanges tickers_dict :
  ∃ spread_data high_spread_data,
    scan_spreads exchange_names exchanges tickers_dict
    = Ok (spread_data, high_spread_data) ∧
    Forall (λ r,
      (r_exchange_1 r, r_exchange_2 r) ∈ venue_pairs exchange_names ∧
      r_symbol r ∈ get_common_pairs (exchanges (r_exchange_1 r))
                                    (exchanges (r_exchange_2 r)) ∧
      get_price tickers_dict (r_symbol r) (r_exchange_1 r) = Some (r_price_1 r) ∧
      get_price tickers_dict (r_symbol r) (r_exchange_2 r) = Some (r_price_2 r) ∧
      r_spread r = (r_price_1 r - r_price_2 r)%Q ∧
      spread_percent_of (r_spread r) (r_price_2 r) = Ok (r_spread_percent r))
      spread_data.
Proof.
  rewrite scan_spreads_scanned.
  destruct (scanned exchange_names exchanges tickers_dict) as [sd hd] eqn:Hscan.
  exists sd, hd. split; [done|].
  change sd with (sd, hd).1. rewrite <- Hscan. clear Hscan sd hd.
  apply scanned_ind_pairs; [constructor|].
  intros e1 e2 [sd hd] symbol Hpair Hsymbol Hsd. unfold visited.
  destruct (get_price tickers_dict symbol e1) as [p1|] eqn:H1; [|done].
  destruct (get_price tickers_dict symbol e2) as [p2|] eqn:H2; [|done].
  cbn [fst snd] in *. apply Forall_app. split; [done|].
  constructor; [|constructor]. simpl.
  repeat (split; [done|]). apply spread_percent_of_total.
Qed.

End ScanProperties.

Section ScanCoverage.
Context {order : IterOrder}.

Lemma visited_keeps tickers_dict e1 e2 lists symbol r :
  (r ∈ lists.1 → r ∈ (visited tickers_dict e1 e2 lists symbol).1) ∧
  (r ∈ lists.2 → r ∈ (visited tickers_dict e1 e2 lists symbol).2).
Proof.
  unfold visited.
  destruct (get_price tickers_dict symbol e1) as [p1|]; [|done].
  destruct (get_price tickers_dict symbol e2) as [p2|]; [|done].
  cbn [fst snd]. split; intros Hr.
  - apply elem_of_app. by left.
  - destruct (is_high_spread _); [|done]. apply elem_of_app. by left.
Qed.

(** No pair and no instrument is passed over: for every venue pair of the
    loop and every instrument common to it that the snapshot prices on both
    venues, the scan's spread list holds the record built from the two
    prices, and so does the high-spread list when the percent passes the
    threshold. *)
Theorem priced_common_pairs_are_recorded exchange_names exchanges tickers_dict
    e1 e2 symbol price_1 price_2 :
  (e1, e2) ∈ venue_pairs exchange_names →
  symbol ∈ get_common_pairs (exchanges e1) (exchanges e2) →
  get_price tickers_dict symbol e1 = Some price_1 →
  get_price tickers_dict symbol e2 = Some price_2 →
  ∃ spread_data high_spread_data,
    scan_spreads exchange_names exchanges tickers_dict
    = Ok (spread_data, high_spread_data) ∧
    record_of symbol e1 e2 price_1 price_2 ∈ spread_data ∧
    (high_spread (record_of symbol e1 e2 price_1 price_2) →
     record_of symbol e1 e2 price_1 price_2 ∈ high_spread_data).
Proof.
  intros Hpair Hsymbol H1 H2. rewrite scan_spreads_scanned.
  set (r := record_of symbol e1 e2 price_1 price_2).
  assert (Hgoal : r ∈ (scanned exchange_names exchanges tickers_dict).1 ∧
            (high_spread r → r ∈ (scanned exchange_names exchanges tickers_dict).2)).
  { unfold scanned.
    apply list_elem_of_split in Hpair as (pairs1 & pairs2 & ->).
    apply list_elem_of_split in Hsymbol as (symbols1 & symbols2 & Hsymbols).
    rewrite foldl_app. cbn [foldl]. rewrite Hsymbols, foldl_app. cbn [foldl].
    set (P := λ lists : list spread_record * list spread_record,
                r ∈ lists.1 ∧ (high_spread r → r ∈ lists.2)).
    assert (Hkeep : ∀ a b lists s, P lists → P (visited tickers_dict a b lists s)).
    { intros a b lists s [Hsd Hhd]. split.
      - by apply visited_keeps.
      - intros Hh. by apply visited_keeps, Hhd. }
    apply (foldl_invariant P).
    - apply (foldl_invariant P); [|intros; by apply Hkeep].
      unfold P, visited. rewrite H1, H2. cbn [fst snd]. fold r. split.
      + apply elem_of_app. right. left.
      + intros Hh. unfold high_spread in Hh. rewrite Hh.
        apply elem_of_app. right. left.
    - intros lists [a b] _ Hlists.
      apply (foldl_invariant P); [done|]. intros; by apply Hkeep. }
  destruct (scanned exchange_names exchanges tickers_dict) as [sd hd].
  exists sd, hd. split; [done|]. exact Hgoal.
Qed.

End ScanCoverage.

Lemma priced_common_pairs_are_recorded_witness :
  ∃ spread_data high_spread_data,
    scan_spreads (order := elements_order) two_venues (λ _, catalog_of 1)
      (price_cache (two_venue_cycle 1 1).1) = Ok (spread_data, high_spread_data) ∧
    record_of "S1" "X" "Y" 100 99 ∈ spread_data ∧
    record_of "S1" "X" "Y" 100 99 ∈ high_spread_data.
Proof.
  destruct (priced_common_pairs_are_recorded (order := elements_order)
              two_venues (λ _, catalog_of 1) (price_cache (two_venue_cycle 1 1).1)
              "X" "Y" "S1" 100 99) as (sd & hd & Hscan & Hsd & Hhd).
  - vm_compute. left.
  - vm_compute. left.
  - vm_compute. reflexivity.
  - vm_compute. reflexivity.
  - exists sd, hd. split; [exact Hscan|]. split; [exact Hsd|].
    apply Hhd. reflexivity.
Defined.


(** ** The loop as a whole *)

Lemma has_entry_store_results (table : gmap string (gmap string (option Q)))
    batches symbol exchange_name :
  has_entry table symbol exchange_name →
  has_entry (store_results table batches) symbol exchange_name.
Proof.
  unfold has_entry. rewrite lookup_entry_store_results. intros [p ->].
  destruct (latest_quote (quotes_of batches) symbol exchange_name); by eexists.
Qed.

Section LoopProperties.
Context {order : IterOrder}.

(** What every cycle body and the handler keep, the loop keeps. *)
Lemma run_loop_invariant (I : engine_state → Prop) exchange_names exchanges envs st :
  (∀ env st st' outcome,
     I st → cycle_body exchange_names exchanges env st = (st', outcome) → I st') →
  (∀ e st, I st → I (handle_exception e st)) →
  I st → I (state_of (run_loop exchange_names exchanges envs st)).
Proof.
  intros Hbody Hhandler. revert st.
  induction envs as [|env envs IH]; intros st Hst; simpl; [done|].
  unfold iteration.
  destruct (cycle_body exchange_names exchanges env st) as [st' [[]|e]] eqn:Hb;
    pose proof (Hbody _ _ _ _ Hst Hb) as Hst'.
  - by apply IH.
  - destruct (isinstance_Exception e); simpl; [|done]. by apply IH, Hhandler.
Qed.

(** How a cycle body changes the state, whichever way it ends. *)
Lemma cycle_body_extends exchange_names exchanges env st st' outcome :
  cycle_body exchange_names exchanges env st = (st', outcome) →
  high_spread_queue st `prefix_of` high_spread_queue st' ∧
  trace st `prefix_of` trace st' ∧
  (∀ s v, has_entry (price_cache st) s v → has_entry (price_cache st') s v).
Proof.
  destruct (subscribe_tickers (watch_tickers env)
    (exchanges_items exchange_names exchanges) (price_cache st)) as [cache|e] eqn:Hsub.
  - rewrite (cycle_body_Ok _ _ _ _ _ Hsub). intros [= <- _]. simpl.
    split; [|split].
    + destruct (signal_gate _ _); [by apply prefix_app_r|done].
    + destruct (Qle_bool _ _); [by apply prefix_app_r|done].
    + apply subscribe_tickers_batches in Hsub as (batches & -> & _).
      intros s v. apply has_entry_store_results.
  - rewrite (cycle_body_Raise _ _ _ _ _ Hsub). by intros [= <- _].
Qed.

(** The loop only ever adds: whatever was on the queue stays at its front in
    the same order, what was printed stays printed, and no key of the price
    table is lost, whether cycles complete or fail. *)
Theorem loop_only_appends exchange_names exchanges envs st :
  high_spread_queue st
    `prefix_of` high_spread_queue (state_of (run_loop exchange_names exchanges envs st)) ∧
  trace st `prefix_of` trace (state_of (run_loop exchange_names exchanges envs st)) ∧
  (∀ s v, has_entry (price_cache st) s v →
          has_entry (price_cache (state_of (run_loop exchange_names exchanges envs st))) s v).
Proof.
  apply (run_loop_invariant (λ st',
    high_spread_queue st `prefix_of` high_spread_queue st' ∧
    trace st `prefix_of` trace st' ∧
    (∀ s v, has_entry (price_cache st) s v → has_entry (price_cache st') s v))).
  - intros env st1 st2 outcome (Hq & Ht & Hc) Hbody.
    apply cycle_body_extends in Hbody as (Hq' & Ht' & Hc').
    split; [by etrans|]. split; [by etrans|]. auto.
  - intros e st1 (Hq & Ht & Hc). split; [done|]. split; [|done].
    simpl. by apply prefix_app_r.
  - done.
Qed.

End LoopProperties.

(** ** What a cycle sends, prints and leaves behind *)

Section CycleProperties.
Context {order : IterOrder}.

Lemma signal_gate_sort_reverse (spread_data high_spread_data : list spread_record) :
  signal_gate (sort_reverse rank_key spread_data) high_spread_data
  = signal_gate spread_data high_spread_data.
Proof. unfold signal_gate. by rewrite length_sort_reverse. Qed.

(** The batch of a cycle that passes the gate is made of the first three
    records, in the order of discovery, whose percent passes the threshold:
    the sort of line 91 has no part in it. *)
Theorem signal_batch_is_discovery_prefix exchange_names exchanges env st st' :
  cycle_body exchange_names exchanges env st = (st', Ok ()) →
  ∃ spread_data high_spread_data,
    scan_spreads exchange_names exchanges (price_cache st')
    = Ok (spread_data, high_spread_data) ∧
    (signal_gate spread_data high_spread_data = true →
     high_spread_queue st'
     = high_spread_queue st ++ [take 3 (filter high_spread spread_data)]) ∧
    (signal_gate spread_data high_spread_data = false →
     high_spread_queue st' = high_spread_queue st).
Proof.
  intros Hbody.
  apply cycle_body_cases in Hbody as [(e' & [=] & _)|[_ Hq]].
  rewrite scan_spreads_scanned. cbv zeta in Hq.
  rewrite signal_gate_sort_reverse, scanned_high_filter in Hq.
  pose proof (scanned_high_filter exchange_names exchanges (price_cache st')) as Hf.
  destruct (scanned exchange_names exchanges (price_cache st')) as [sd hd].
  simpl in *. subst hd. exists sd, (filter high_spread sd). split; [done|].
  split; intros Hgate; by rewrite Hgate in Hq.
Qed.

(** A cycle body that raises has changed nothing, and what it raises is
    what the stream of a subscribed venue raised: a venue of the dict with
    at least one qualifying instrument, asked for exactly those. *)
Theorem failed_cycle_changes_nothing exchange_names exchanges env st st' e :
  cycle_body exchange_names exchanges env st = (st', Raise e) →
  st' = st ∧
  ∃ exchange_name ex,
    (exchange_name, ex) ∈ exchanges_items exchange_names exchanges ∧
    linear_swap_symbols ex ≠ [] ∧
    watch_tickers env exchange_name (linear_swap_symbols ex) = Raise e.
Proof.
  intros Hbody.
  apply cycle_body_cases in Hbody as [(e' & [= <-] & -> & Hsub)|[[=] _]].
  split; [done|]. unfold subscribe_tickers in Hsub.
  destruct (gather _) as [rs|e'] eqn:Hg; [done|]. simpl in Hsub.
  injection Hsub as ->. apply gather_Raise in Hg.
  apply list_elem_of_fmap in Hg as ([name task] & Htask & Hin). simpl in Htask.
  subst task. unfold make_tasks in Hin.
  apply list_elem_of_omap in Hin as ([name' ex] & Hitem & Hsome).
  case_bool_decide as Hne; [done|]. injection Hsome as -> Hw.
  by exists name, ex.
Qed.

End CycleProperties.

Lemma signal_batch_is_discovery_prefix_witness :
  ∃ spread_data high_spread_data,
    scan_spreads (order := elements_order) two_venues (λ _, catalog_of 250)
      (price_cache (two_venue_cycle 250 3).1) = Ok (spread_data, high_spread_data) ∧
    high_spread_queue (two_venue_cycle 250 3).1
    = [take 3 (filter high_spread spread_data)].
Proof.
  destruct (signal_batch_is_discovery_prefix (order := elements_order) two_venues
              (λ _, catalog_of 250) (two_venue_env 250 3) initial_state
              (two_venue_cycle 250 3).1) as (sd & hd & Hscan & Hsent & _).
  { vm_compute. reflexivity. }
  exists sd, hd. split; [exact Hscan|]. apply Hsent.
  vm_compute in Hscan. injection Hscan as <- <-. reflexivity.
Defined.

Lemma failed_cycle_changes_nothing_witness :
  (cycle_body (order := elements_order) two_venues (λ _, catalog_of 1)
     (failing_env (FeedError "connection lost")) initial_state).1 = initial_state.
Proof.
  apply (failed_cycle_changes_nothing (order := elements_order) two_venues
           (λ _, catalog_of 1) (failing_env (FeedError "connection lost"))
           initial_state _ (FeedError "connection lost")).
  vm_compute. reflexivity.
Defined.

(** ** The status print of lines 94-98 *)

Lemma status_due_false (now last : Q) :
  Qle_bool 60 (now - last) = false ↔ (now - last < 60)%Q.
Proof.
  rewrite <- not_true_iff_false, Qle_bool_iff. split.
  - apply Qnot_le_lt.
  - apply Qlt_not_le.
Qed.

Section StatusProperties.
Context {order : IterOrder}.

Lemma cycle_body_quiet exchange_names exchanges env st st' :
  cycle_body exchange_names exchanges env st = (st', Ok ()) →
  (time_now env - last_time st < 60)%Q →
  last_time st' = last_time st ∧ trace st' = trace st.
Proof.
  intros Hbody Hearly.
  destruct (subscribe_tickers (watch_tickers env)
    (exchanges_items exchange_names exchanges) (price_cache st)) as [cache|e] eqn:Hsub.
  2: { rewrite (cycle_body_Raise _ _ _ _ _ Hsub) in Hbody. discriminate Hbody. }
  rewrite (cycle_body_Ok _ _ _ _ _ Hsub) in Hbody. injection Hbody as <-.
  simpl. apply status_due_false in Hearly. by rewrite Hearly.
Qed.

(** A completed cycle prints the status exactly when at least 60 seconds
    have passed since the time it remembers; it then prints the first ten
    records of the sorted spread list (all of them when there are fewer) and
    remembers the current time.  Otherwise it prints nothing and remembers
    what it did. *)
Theorem status_print_every_minute exchange_names exchanges env st st' :
  cycle_body exchange_names exchanges env st = (st', Ok ()) →
  ((60 <= time_now env - last_time st)%Q →
     last_time st' = time_now env ∧
     ∃ spread_data high_spread_data,
       scan_spreads exchange_names exchanges (price_cache st')
       = Ok (spread_data, high_spread_data) ∧
       trace st'
       = trace st ++ [PrintStatus (take 10 (sort_reverse rank_key spread_data))] ∧
       (length (take 10 (sort_reverse rank_key spread_data))
        = Nat.min 10 (length spread_data))%nat) ∧
  ((time_now env - last_time st < 60)%Q →
     last_time st' = last_time st ∧ trace st' = trace st).
Proof.
  intros Hbody. split; [|by apply (cycle_body_quiet exchange_names exchanges)].
  destruct (subscribe_tickers (watch_tickers env)
    (exchanges_items exchange_names exchanges) (price_cache st)) as [cache|e] eqn:Hsub.
  2: { rewrite (cycle_body_Raise _ _ _ _ _ Hsub) in Hbody. discriminate Hbody. }
  rewrite (cycle_body_Ok _ _ _ _ _ Hsub) in Hbody. injection Hbody as <-.
  simpl.
  - intros Hdue. apply Qle_bool_iff in Hdue. rewrite Hdue. split; [done|].
    rewrite scan_spreads_scanned.
    destruct (scanned exchange_names exchanges cache) as [sd hd].
    exists sd, hd. split; [done|]. split; [done|].
    by rewrite length_take, length_sort_reverse.
Qed.

(** While less than 60 seconds have passed since the remembered time, no
    turn of the loop prints a status, whether it completes or fails, and the
    remembered time stays. *)
Theorem no_status_within_a_minute exchange_names exchanges envs st :
  Forall (λ env, (time_now env - last_time st < 60)%Q) envs →
  last_time (state_of (run_loop exchange_names exchanges envs st)) = last_time st ∧
  ∃ printed,
    trace (state_of (run_loop exchange_names exchanges envs st)) = trace st ++ printed ∧
    Forall (λ out, ∀ rows, out ≠ PrintStatus rows) printed.
Proof.
  revert st. induction envs as [|env envs IH]; intros st Hearly; simpl.
  { split; [done|]. exists []. by rewrite app_nil_r. }
  apply Forall_cons in Hearly as [Hnow Hearly]. unfold iteration.
  assert (Hnext : ∀ st1 printed1,
            last_time st1 = last_time st →
            trace st1 = trace st ++ printed1 →
            Forall (λ out, ∀ rows, out ≠ PrintStatus rows) printed1 →
            last_time (state_of (run_loop exchange_names exchanges envs st1))
            = last_time st ∧
            ∃ printed,
              trace (state_of (run_loop exchange_names exchanges envs st1))
              = trace st ++ printed ∧
              Forall (λ out, ∀ rows, out ≠ PrintStatus rows) printed).
  { intros st1 printed1 Hlast Htrace Hprinted1.
    destruct (IH st1) as (Hlast' & printed & Htrace' & Hprinted).
    { by rewrite Hlast. }
    split; [by rewrite Hlast'|]. exists (printed1 ++ printed).
    split; [by rewrite Htrace', Htrace, app_assoc|]. by apply Forall_app. }
  destruct (cycle_body exchange_names exchanges env st) as [st1 [[]|e]] eqn:Hbody.
  - destruct (cycle_body_quiet _ _ _ _ _ Hbody Hnow) as [Hlast Htrace].
    apply (Hnext st1 []); [done| by rewrite app_nil_r | constructor].
  - apply cycle_body_Raise_feed in Hbody as [-> _].
    destruct (isinstance_Exception e); simpl.
    + apply (Hnext _ [PrintError (String.append "Error: " (str e)); Sleep 5]);
        [done | done |]. by repeat constructor.
    + split; [done|]. exists []. by rewrite app_nil_r.
Qed.

End StatusProperties.

(** The first cycle of a run prints; two more cycles at the same clock
    reading print nothing. *)
Lemma status_print_every_minute_witness :
  last_time (two_venue_cycle 1 1).1 = 1700000000%Q ∧
  ∃ spread_data high_spread_data,
    scan_spreads (order := elements_order) two_venues (λ _, catalog_of 1)
      (price_cache (two_venue_cycle 1 1).1) = Ok (spread_data, high_spread_data) ∧
    trace (two_venue_cycle 1 1).1
    = [PrintStatus (take 10 (sort_reverse rank_key spread_data))] ∧
    length (take 10 (sort_reverse rank_key spread_data))
    = Nat.min 10 (length spread_data).
Proof.
  apply (proj1 (status_print_every_minute (order := elements_order) two_venues
                  (λ _, catalog_of 1) (two_venue_env 1 1) initial_state
                  (two_venue_cycle 1 1).1 eq_refl)).
  vm_compute. discriminate.
Defined.

Lemma no_status_within_a_minute_witness :
  ∃ printed,
    trace (state_of (run_loop (order := elements_order) two_venues (λ _, catalog_of 1)
                       [two_venue_env 1 1; failing_env (FeedError "connection lost")]
                       (two_venue_cycle 1 1).1))
    = trace (two_venue_cycle 1 1).1 ++ printed ∧
    Forall (λ out, ∀ rows, out ≠ PrintStatus rows) printed.
Proof.
  apply (no_status_within_a_minute (order := elements_order) two_venues
           (λ _, catalog_of 1)
           [two_venue_env 1 1; failing_env (FeedError "connection lost")]
           (two_venue_cycle 1 1).1).
  repeat constructor.
Defined.

(** The ten rows of a status print are ten best-ranked records: no record
    left out of the print has a larger absolute percent than a printed one. *)
Theorem status_rows_are_best_ranked (spread_data : list spread_record) r r' :
  r ∈ take 10 (sort_reverse rank_key spread_data) →
  r' ∈ drop 10 (sort_reverse rank_key spread_data) →
  (Qabs (r_spread_percent r') <= Qabs (r_spread_percent r))%Q.
Proof.
  intros Hr Hr'.
  pose proof (sort_reverse_descending rank_key spread_data) as Hsorted.
  rewrite <- (take_drop 10 (sort_reverse rank_key spread_data)) in Hsorted.
  exact (StronglySorted_app_1_elem_of _ _ _ _ _ Hsorted Hr Hr').
Qed.

Lemma status_rows_are_best_ranked_witness :
  (Qabs (r_spread_percent (record_of "S2" "X" "Y" 100 100))
   <= Qabs (r_spread_percent (record_of "S1" "X" "Y" 100 99)))%Q.
Proof.
  apply (status_rows_are_best_ranked
           (replicate 10 (record_of "S2" "X" "Y" 100 100)
            ++ [record_of "S1" "X" "Y" 100 99])).
  - vm_compute. left.
  - vm_compute. left.
Defined.

(** ** How many records a scan can produce *)

Section ScanSize.
Context {order : IterOrder}.

Lemma visits_length tickers_dict e1 e2 symbols lists :
  (length (foldl (visited tickers_dict e1 e2) lists symbols).1
   ≤ length lists.1 + length symbols)%nat.
Proof.
  revert lists. induction symbols as [|s symbols IH]; intros lists; simpl; [lia|].
  etrans; [apply IH|]. unfold visited.
  destruct (get_price tickers_dict s e1); [|lia].
  destruct (get_price tickers_dict s e2); [|lia].
  cbn [fst]. rewrite length_app. simpl. lia.
Qed.

Lemma scanned_length exchange_names exchanges tickers_dict :
  (length (scanned exchange_names exchanges tickers_dict).1
   ≤ sum_list_with (λ pair, length (get_common_pairs (exchanges pair.1)
                                                      (exchanges pair.2)))
                   (venue_pairs exchange_names))%nat.
Proof.
  unfold scanned.
  assert (Hgen : ∀ pairs lists,
    (length (foldl (λ lists '(e1, e2),
                      foldl (visited tickers_dict e1 e2) lists
                            (get_common_pairs (exchanges e1) (exchanges e2)))
                   lists pairs).1
     ≤ length lists.1
       + sum_list_with (λ pair, length (get_common_pairs (exchanges pair.1)
                                                          (exchanges pair.2)))
                       pairs)%nat).
  { induction pairs as [|[e1 e2] pairs IH]; intros lists; simpl; [lia|].
    etrans; [apply IH|].
    pose proof (visits_length tickers_dict e1 e2
                  (get_common_pairs (exchanges e1) (exchanges e2)) lists). lia. }
  apply (Hgen _ ([], [])).
Qed.

(** A scan has at most one record per venue pair and common instrument. *)
Theorem spread_data_length_bound exchange_names exchanges tickers_dict :
  ∃ spread_data high_spread_data,
    scan_spreads exchange_names exchanges tickers_dict
    = Ok (spread_data, high_spread_data) ∧
    (length spread_data
     ≤ sum_list_with (λ pair, length (get_common_pairs (exchanges pair.1)
                                                        (exchanges pair.2)))
                     (venue_pairs exchange_names))%nat.
Proof.
  rewrite scan_spreads_scanned.
  pose proof (scanned_length exchange_names exchanges tickers_dict) as Hlen.
  destruct (scanned exchange_names exchanges tickers_dict) as [sd hd]. eauto.
Qed.

(** When the venue pairs have fewer than 250 common instruments between
    them, whatever the prices the loop never puts a batch on the queue; in
    particular never with a single venue. *)
Theorem nothing_sent_below_250_combinations exchange_names exchanges envs :
  (sum_list_with (λ pair, length (get_common_pairs (exchanges pair.1)
                                                    (exchanges pair.2)))
                 (venue_pairs exchange_names) < 250)%nat →
  high_spread_queue (state_of (run_loop exchange_names exchanges envs initial_state))
  = [].
Proof.
  intros Hfew.
  apply (run_loop_invariant (λ st, high_spread_queue st = [])); [| done | done].
  intros env st st' outcome Hst Hbody.
  apply cycle_body_cases in Hbody as [(e & _ & -> & _)|[_ Hq]]; [done|].
  rewrite Hq, Hst. clear Hq.
  pose proof (scanned_length exchange_names exchanges (price_cache st')) as Hlen.
  destruct (scanned exchange_names exchanges (price_cache st')) as [sd hd].
  simpl in *.
  destruct (signal_gate (sort_reverse rank_key sd) hd) eqn:Hgate; [|done].
  apply signal_gate_spec in Hgate as [Hmany _].
  rewrite length_sort_reverse in Hmany. lia.
Qed.

End ScanSize.

Lemma nothing_sent_below_250_combinations_witness :
  high_spread_queue
    (state_of (run_loop (order := elements_order) ["X"] (λ _, catalog_of 300)
                 [two_venue_env 300 300; two_venue_env 300 300] initial_state))
  = [].
Proof.
  apply (nothing_sent_below_250_combinations (order := elements_order)).
  vm_compute. lia.
Defined.

(** ** Subscriptions *)

Section SubscriptionProperties.
Context {order : IterOrder}.

Lemma elem_of_dict_key_order (exchange_names : list string) name :
  name ∈ dict_key_order exchange_names ↔ name ∈ exchange_names.
Proof.
  induction exchange_names as [|n rest IH]; simpl; [done|].
  rewrite !elem_of_cons, list_elem_of_filter, IH.
  destruct (decide (name = n)) as [->|Hne]; [by split; intros; left|].
  split; [intros [?|[_ ?]]; [done | by right] | intros [?|?]; [done | by right]].
Qed.

Lemma NoDup_dict_key_order (exchange_names : list string) :
  NoDup (dict_key_order exchange_names).
Proof.
  induction exchange_names as [|n rest IH]; simpl; [constructor|].
  constructor; [|by apply NoDup_filter].
  rewrite list_elem_of_filter. by intros [Hne _].
Qed.

Lemma make_tasks_names watch (exchanges : list (string * exchange)) :
  (make_tasks watch exchanges).*1
  = (filter (λ item, linear_swap_symbols item.2 ≠ []) exchanges).*1.
Proof.
  unfold make_tasks. induction exchanges as [|[name ex] exchanges IH]; [done|].
  cbn [omap list_omap]. rewrite filter_cons. cbn [snd].
  case_bool_decide as Hempty.
  - rewrite decide_False by (intros Hne; by apply Hne). exact IH.
  - rewrite decide_True by done. rewrite !fmap_cons. by f_equal.
Qed.

(** In one cycle a venue is subscribed at most once, even when it is named
    several times, and it is subscribed exactly when it is named and its
    catalog has a qualifying instrument. *)
Theorem one_subscription_per_venue watch exchange_names exchanges :
  NoDup (make_tasks watch (exchanges_items exchange_names exchanges)).*1 ∧
  ∀ name, name ∈ (make_tasks watch (exchanges_items exchange_names exchanges)).*1 ↔
          name ∈ exchange_names ∧ linear_swap_symbols (exchanges name) ≠ [].
Proof.
  rewrite make_tasks_names. unfold exchanges_items. split.
  - apply NoDup_fmap_fst.
    + intros name ex1 ex2 [_ H1]%list_elem_of_filter [_ H2]%list_elem_of_filter.
      apply list_elem_of_fmap in H1 as (n1 & [= -> ->] & _).
      by apply list_elem_of_fmap in H2 as (n2 & [= -> ->] & _).
    + apply NoDup_filter, NoDup_fmap_2; [|apply NoDup_dict_key_order].
      by intros ?? [= ->].
  - intros name. rewrite list_elem_of_fmap. split.
    + intros ([name' ex] & -> & [Hne Hin]%list_elem_of_filter).
      apply list_elem_of_fmap in Hin as (n & [= -> ->] & Hn).
      simpl in *. split; [by apply elem_of_dict_key_order|done].
    + intros [Hin Hne]. exists (name, exchanges name). split; [done|].
      apply list_elem_of_filter. split; [done|].
      apply list_elem_of_fmap. exists name. split; [done|].
      by apply elem_of_dict_key_order.
Qed.

Lemma make_tasks_ext watch watch' (exchanges : list (string * exchange)) :
  (∀ name ex, (name, ex) ∈ exchanges → linear_swap_symbols ex ≠ [] →
     watch name (linear_swap_symbols ex) = watch' name (linear_swap_symbols ex)) →
  make_tasks watch exchanges = make_tasks watch' exchanges.
Proof.
  unfold make_tasks. induction exchanges as [|[name ex] exchanges IH]; intros Hsame;
    [done|].
  cbn [omap list_omap]. rewrite IH by (intros n e Hin; apply Hsame; by right).
  case_bool_decide as Hempty; [done|].
  rewrite (Hsame name ex); [done | left | done].
Qed.

(** The ingestion step asks a venue's stream only for the qualifying
    instruments of that venue and does not touch the stream of a venue that
    has none: what such a stream would return or raise plays no role. *)
Theorem subscribe_tickers_awaits_subscribed_only watch watch'
    (exchanges : list (string * exchange)) table :
  (∀ name ex, (name, ex) ∈ exchanges → linear_swap_symbols ex ≠ [] →
     watch name (linear_swap_symbols ex) = watch' name (linear_swap_symbols ex)) →
  subscribe_tickers watch exchanges table = subscribe_tickers watch' exchanges table.
Proof.
  intros Hsame. unfold subscribe_tickers. by rewrite (make_tasks_ext watch watch').
Qed.

End SubscriptionProperties.

(** A venue without qualifying instruments whose stream would fail does not
    make the ingestion step fail. *)
Lemma subscribe_tickers_awaits_subscribed_only_witness :
  subscribe_tickers (order := elements_order) (quoting_but "Z" (skew_price 1) 1)
    [("X", catalog_of 1); ("Z", catalog_spot)] ∅
  = subscribe_tickers (order := elements_order) (quoting (skew_price 1) 1)
      [("X", catalog_of 1); ("Z", catalog_spot)] ∅.
Proof.
  apply (subscribe_tickers_awaits_subscribed_only (order := elements_order)).
  intros name ex Hin Hne.
  apply elem_of_cons in Hin as [[= -> ->]|Hin]; [reflexivity|].
  apply elem_of_cons in Hin as [[= -> ->]|Hin].
  - exfalso. apply Hne. vm_compute. reflexivity.
  - by apply not_elem_of_nil in Hin.
Defined.

(** ** Equal prices and a venue paired with itself *)

Lemma equal_prices_record symbol e1 e2 (p1 p2 : Q) :
  (p1 == p2)%Q →
  (r_spread (record_of symbol e1 e2 p1 p2) == 0)%Q ∧
  (r_spread_percent (record_of symbol e1 e2 p1 p2) == 0)%Q ∧
  ¬ high_spread (record_of symbol e1 e2 p1 p2).
Proof.
  intros Heq. simpl.
  assert (Hpercent : ((if truthy p2 then (p1 - p2) / p2 * 100 else 0) == 0)%Q).
  { destruct (truthy p2); [|reflexivity]. rewrite Heq. unfold Qdiv. ring. }
  split; [rewrite Heq; ring|]. split; [exact Hpercent|].
  unfold high_spread, is_high_spread. simpl.
  assert (Hle : Qle_bool (Qabs (if truthy p2 then (p1 - p2) / p2 * 100 else 0)) (1 # 2)
                = true).
  { apply Qle_bool_iff. rewrite Hpercent. discriminate. }
  by rewrite Hle.
Qed.

Section DegeneratePairs.
Context {order : IterOrder}.

(** A record whose two prices are equal has spread 0, percent 0 and is
    never high-spread; and when a venue name occurs twice in the list of
    names, so that a venue is paired with itself, its records are of that
    kind: they count towards the 250 of the gate but never towards the 3. *)
Theorem equal_prices_are_never_high_spread exchange_names exchanges tickers_dict :
  ∃ spread_data high_spread_data,
    scan_spreads exchange_names exchanges tickers_dict
    = Ok (spread_data, high_spread_data) ∧
    Forall (λ r,
      ((r_price_1 r == r_price_2 r)%Q →
         (r_spread r == 0)%Q ∧ (r_spread_percent r == 0)%Q ∧
         ¬ high_spread r ∧ r ∉ high_spread_data) ∧
      (r_exchange_1 r = r_exchange_2 r → r_price_1 r = r_price_2 r))
      spread_data.
Proof.
  rewrite scan_spreads_scanned.
  pose proof (scanned_high_filter exchange_names exchanges tickers_dict) as Hf.
  assert (Hall : Forall (λ r,
            ((r_price_1 r == r_price_2 r)%Q →
               (r_spread r == 0)%Q ∧ (r_spread_percent r == 0)%Q ∧ ¬ high_spread r) ∧
            (r_exchange_1 r = r_exchange_2 r → r_price_1 r = r_price_2 r))
            (scanned exchange_names exchanges tickers_dict).1).
  { apply scanned_ind; [constructor|].
    intros e1 e2 [sd hd] symbol Hsd. unfold visited.
    destruct (get_price tickers_dict symbol e1) as [p1|] eqn:H1; [|done].
    destruct (get_price tickers_dict symbol e2) as [p2|] eqn:H2; [|done].
    cbn [fst snd] in *. apply Forall_app. split; [done|].
    constructor; [|constructor]. split.
    - apply equal_prices_record.
    - simpl. intros <-. congruence. }
  destruct (scanned exchange_names exchanges tickers_dict) as [sd hd].
  simpl in *. subst hd. exists sd, (filter high_spread sd). split; [done|].
  eapply Forall_impl; [exact Hall|]. intros r [Heq Hself]. split; [|done].
  intros Hp. destruct (Heq Hp) as (Hs & Hpc & Hh).
  repeat (split; [done|]). by intros [? _]%list_elem_of_filter.
Qed.

End DegeneratePairs.

(** A venue named twice is compared with itself: one record, spread 0,
    not high-spread. *)
Lemma equal_prices_are_never_high_spread_witness :
  ∃ spread_data high_spread_data,
    scan_spreads (order := elements_order) ["X"; "X"] (λ _, catalog_of 1)
      (price_cache (two_venue_cycle 1 1).1) = Ok (spread_data, high_spread_data) ∧
    length spread_data = 1%nat ∧
    Forall (λ r, (r_spread r == 0)%Q ∧ r ∉ high_spread_data) spread_data.
Proof.
  destruct (equal_prices_are_never_high_spread (order := elements_order)
              ["X"; "X"] (λ _, catalog_of 1) (price_cache (two_venue_cycle 1 1).1))
    as (sd & hd & Hscan & Hall).
  exists sd, hd. split; [exact Hscan|].
  vm_compute in Hscan. injection Hscan as <- <-. split; [reflexivity|].
  apply Forall_cons in Hall as [[Heq _] _].
  destruct Heq as (Hspread & _ & _ & Hout); [reflexivity|].
  constructor; [|constructor]. split; [exact Hspread | exact Hout].
Defined.

(** ** The status table *)

Lemma string_length_app (s1 s2 : string) :
  String.length (s1 +:+ s2) = (String.length s1 + String.length s2)%nat.
Proof. induction s1 as [|c s1 IH]; simpl; [done|]. by rewrite IH. Qed.

Lemma length_repeat_char c n : String.length (repeat_char c n) = n.
Proof. induction n as [|n IH]; simpl; [done|]. by rewrite IH. Qed.

Lemma length_ljust width s :
  String.length (ljust width s) = Nat.max width (String.length s).
Proof. unfold ljust. rewrite string_length_app, length_repeat_char. lia. Qed.

Lemma max_symbol_width_bound (spread_data : list spread_record) r :
  r ∈ spread_data → (String.length (r_symbol r) ≤ max_symbol_width spread_data)%nat.
Proof.
  intros Hr. unfold max_symbol_width.
  destruct spread_data as [|r0 rest]; [by apply not_elem_of_nil in Hr|].
  apply max_list_elem_of_le, list_elem_of_fmap. by exists r.
Qed.

(** The status text has three lines of heading followed by one line per
    record.  The symbol column is as wide as the longest symbol (6 for an
    empty table), so no symbol overflows it; a row is never shorter than
    the symbol column plus 86 characters and is exactly that long when the
    venue names and the rendered numbers fit their columns, so such rows
    line up.  The rule under the header has 84 signs besides the symbol
    column, two fewer than a row is wide. *)
Theorem status_table_layout (CYAN YELLOW RESET_ALL : string)
    (format_fixed : nat → Q → string) (spread_data : list spread_record) :
  let width := max_symbol_width spread_data in
  length (status_lines CYAN YELLOW RESET_ALL format_fixed spread_data)
  = (3 + length spread_data)%nat ∧
  (spread_data = [] → width = 6%nat) ∧
  String.length (table_rule YELLOW RESET_ALL width)
  = (String.length YELLOW + (width + 84) + String.length RESET_ALL)%nat ∧
  Forall (λ r,
    (String.length (r_symbol r) ≤ width)%nat ∧
    (width + 86 ≤ String.length (table_row format_fixed width r))%nat ∧
    ((String.length (r_exchange_1 r) ≤ 10)%nat →
     (String.length (r_exchange_2 r) ≤ 10)%nat →
     (String.length (format_fixed 8 (r_price_1 r)) ≤ 15)%nat →
     (String.length (format_fixed 8 (r_price_2 r)) ≤ 15)%nat →
     (String.length (format_fixed 8 (r_spread r)) ≤ 12)%nat →
     (String.length (format_fixed 4 (r_spread_percent r)) ≤ 11)%nat →
     String.length (table_row format_fixed width r) = (width + 86)%nat))
    spread_data.
Proof.
  intros width. split; [|split; [|split]].
  - unfold status_lines. rewrite length_app, length_fmap. done.
  - by intros ->.
  - unfold table_rule. rewrite !string_length_app, length_repeat_char. lia.
  - apply Forall_forall. intros r Hr.
    pose proof (max_symbol_width_bound spread_data r Hr) as Hsym. fold width in Hsym.
    assert (Hlen : String.length (table_row format_fixed width r)
              = (Nat.max width (String.length (r_symbol r)) + 2
                 + Nat.max 10 (String.length (r_exchange_1 r)) + 2
                 + Nat.max 10 (String.length (r_exchange_2 r)) + 2
                 + Nat.max 15 (String.length (format_fixed 8 (r_price_1 r))) + 2
                 + Nat.max 15 (String.length (format_fixed 8 (r_price_2 r))) + 2
                 + Nat.max 12 (String.length (format_fixed 8 (r_spread r))) + 2
                 + Nat.max 12 (String.length (format_fixed 4 (r_spread_percent r)) + 1))%nat).
    { unfold table_row. rewrite !string_length_app, !length_ljust, !string_length_app.
      simpl. lia. }
    rewrite Hlen. split; [done|]. split; [lia|]. intros. lia.
Qed.

Lemma status_table_layout_witness :
  String.length
    (table_row (λ _ _, "1.00000000") 2 (record_of "S1" "X" "Y" 100 99))
  = 88%nat.
Proof.
  pose proof (status_table_layout "" "" "" (λ _ _, "1.00000000")
                [record_of "S1" "X" "Y" 100 99]) as (_ & _ & _ & Hrows).
  apply Forall_cons in Hrows as [(_ & _ & Hrow) _].
  apply Hrow; vm_compute; lia.
Defined.

(** ** The threshold without the division *)

Lemma is_high_spread_lt (x : Q) : is_high_spread x = true ↔ (1 # 2 < Qabs x)%Q.
Proof.
  unfold is_high_spread.
  rewrite negb_true_iff, <- not_true_iff_false, Qle_bool_iff. split.
  - apply Qnot_le_lt.
  - apply Qlt_not_le.
Qed.

(** A record is high-spread exactly when its second price is not zero and
    the absolute spread exceeds half a percent of the absolute second
    price; with a second price of zero it never is. *)
Theorem high_spread_is_half_percent_of_price_2 symbol e1 e2 (price_1 price_2 : Q) :
  high_spread (record_of symbol e1 e2 price_1 price_2) ↔
  ¬ (price_2 == 0)%Q ∧ (Qabs price_2 < 200 * Qabs (price_1 - price_2))%Q.
Proof.
  unfold high_spread. simpl. rewrite is_high_spread_lt.
  destruct (truthy price_2) eqn:Ht.
  - apply truthy_true_iff in Ht.
    assert (Hpos : (0 < Qabs price_2)%Q).
    { destruct (Qle_lt_or_eq _ _ (Qabs_nonneg price_2)) as [Hlt|Heq]; [done|].
      exfalso. apply Ht. symmetry in Heq.
      destruct (Qabs_Qle_condition price_2 0) as [Hcond _].
      destruct Hcond as [Hge Hle]; [by rewrite Heq|]. by apply Qle_antisym. }
    assert (Habs : (Qabs ((price_1 - price_2) / price_2 * 100)
                   == Qabs (price_1 - price_2) * 100 / Qabs price_2)%Q).
    { unfold Qdiv. rewrite !Qabs_Qmult, Qabs_Qinv.
      change (Qabs 100) with 100%Q. ring. }
    rewrite Habs. split.
    + intros Hhigh. split; [done|].
      apply (Qmult_lt_r _ _ _ Hpos) in Hhigh.
      assert (Heq : (Qabs (price_1 - price_2) * 100 / Qabs price_2 * Qabs price_2
                    == Qabs (price_1 - price_2) * 100)%Q).
      { field. intros Hz. rewrite Hz in Hpos. discriminate Hpos. }
      rewrite Heq in Hhigh.
      apply (Qmult_lt_l _ _ 2) in Hhigh; [|done].
      assert (H1 : (2 * ((1 # 2) * Qabs price_2) == Qabs price_2)%Q) by ring.
      assert (H2 : (2 * (Qabs (price_1 - price_2) * 100)
                   == 200 * Qabs (price_1 - price_2))%Q) by ring.
      by rewrite H1, H2 in Hhigh.
    + intros [_ Hlt]. apply (Qmult_lt_r _ _ _ Hpos).
      assert (Heq : (Qabs (price_1 - price_2) * 100 / Qabs price_2 * Qabs price_2
                    == Qabs (price_1 - price_2) * 100)%Q).
      { field. intros Hz. rewrite Hz in Hpos. discriminate Hpos. }
      rewrite Heq. apply (Qmult_lt_l _ _ 2); [done|].
      assert (H1 : (2 * ((1 # 2) * Qabs price_2) == Qabs price_2)%Q) by ring.
      assert (H2 : (2 * (Qabs (price_1 - price_2) * 100)
                   == 200 * Qabs (price_1 - price_2))%Q) by ring.
      by rewrite H1, H2.
  - apply truthy_false_iff in Ht. split.
    + intros Hhigh. discriminate Hhigh.
    + intros [Hnz _]. by destruct Hnz.
Qed.

(** ** The consumer beside the engine *)

Section SystemProperties.
Context {order : IterOrder}.

(** The cycle body treats the queue as a place to append to: what it adds
    does not depend on what the queue holds. *)
Lemma cycle_body_with_queue exchange_names exchanges env st queue :
  cycle_body exchange_names exchanges env (with_queue queue st)
  = (with_queue
       (queue ++ drop (length (high_spread_queue st))
                      (high_spread_queue (cycle_body exchange_names exchanges env st).1))
       (cycle_body exchange_names exchanges env st).1,
     (cycle_body exchange_names exchanges env st).2).
Proof.
  destruct (subscribe_tickers (watch_tickers env)
    (exchanges_items exchange_names exchanges) (price_cache st)) as [cache|e] eqn:Hsub.
  - rewrite (cycle_body_Ok exchange_names exchanges env (with_queue queue st) cache Hsub).
    rewrite (cycle_body_Ok exchange_names exchanges env st cache Hsub).
    unfold with_queue. simpl. destruct (signal_gate _ _); simpl.
    + by rewrite drop_app_length.
    + by rewrite drop_all, app_nil_r.
  - rewrite (cycle_body_Raise exchange_names exchanges env (with_queue queue st) e Hsub).
    rewrite (cycle_body_Raise exchange_names exchanges env st e Hsub).
    unfold with_queue. simpl. by rewrite drop_all, app_nil_r.
Qed.

Lemma iteration_with_queue exchange_names exchanges env st queue :
  iteration exchange_names exchanges env (with_queue queue st)
  = status_with_queue
      (queue ++ drop (length (high_spread_queue st))
                     (high_spread_queue
                        (state_of (iteration exchange_names exchanges env st))))
      (iteration exchange_names exchanges env st).
Proof.
  unfold iteration. rewrite cycle_body_with_queue.
  destruct (cycle_body exchange_names exchanges env st) as [st1 [[]|e]]; simpl; [done|].
  by destruct (isinstance_Exception e).
Qed.

Lemma iteration_queue exchange_names exchanges env st :
  high_spread_queue (state_of (iteration exchange_names exchanges env st))
  = high_spread_queue st
    ++ drop (length (high_spread_queue st))
            (high_spread_queue (state_of (iteration exchange_names exchanges env st))).
Proof.
  assert (Hprefix : high_spread_queue st `prefix_of`
            high_spread_queue (state_of (iteration exchange_names exchanges env st))).
  { unfold iteration.
    destruct (cycle_body exchange_names exchanges env st) as [st1 [[]|e]] eqn:Hbody;
      apply cycle_body_extends in Hbody as [Hq _]; [done|].
    by destruct (isinstance_Exception e). }
  destruct Hprefix as [new ->]. by rewrite drop_app_length.
Qed.

Lemma run_loop_one exchange_names exchanges env st :
  run_loop exchange_names exchanges [env] st
  = iteration exchange_names exchanges env st.
Proof. simpl. by destruct (iteration exchange_names exchanges env st). Qed.

Lemma resume_cons exchange_names exchanges status env envs :
  resume exchange_names exchanges status (env :: envs)
  = resume exchange_names exchanges
      (resume exchange_names exchanges status [env]) envs.
Proof.
  destruct status as [st|e st]; [|done]. unfold resume at 1 3.
  rewrite run_loop_one. simpl.
  by destruct (iteration exchange_names exchanges env st).
Qed.

Lemma status_with_queue_twice queue1 queue2 status :
  status_with_queue queue2 (status_with_queue queue1 status)
  = status_with_queue queue2 status.
Proof. by destruct status. Qed.

Lemma queue_of_status_with_queue queue status :
  high_spread_queue (state_of (status_with_queue queue status)) = queue.
Proof. by destruct status. Qed.

(** The system and the engine run alone on the same environments differ
    only in what the consumer has taken off the queue. *)
Lemma run_system_resume exchange_names exchanges schedule sys status queue :
  engine sys = status_with_queue queue status →
  printed sys ++ queue = high_spread_queue (state_of status) →
  ∃ queue',
    engine (run_system exchange_names exchanges schedule sys)
    = status_with_queue queue'
        (resume exchange_names exchanges status (engine_turns schedule)) ∧
    printed (run_system exchange_names exchanges schedule sys) ++ queue'
    = high_spread_queue
        (state_of (resume exchange_names exchanges status (engine_turns schedule))).
Proof.
  revert sys status queue.
  induction schedule as [|[env|] schedule IH]; intros sys status queue Hengine Hqueue.
  - exists queue. simpl. by destruct status.
  - cbn [run_system foldl engine_turns omap list_omap]. rewrite resume_cons.
    fold (run_system exchange_names exchanges schedule
            (engine_turn exchange_names exchanges env sys)).
    destruct status as [st|e st].
    + apply (IH _ _ (queue ++ drop (length (high_spread_queue st))
                (high_spread_queue
                   (state_of (iteration exchange_names exchanges env st))))).
      * unfold engine_turn. cbn [engine]. rewrite Hengine.
        cbn [status_with_queue resume]. rewrite !run_loop_one.
        apply iteration_with_queue.
      * unfold engine_turn. cbn [printed resume]. rewrite run_loop_one.
        rewrite app_assoc, Hqueue. symmetry. apply iteration_queue.
    + apply (IH _ _ queue); [|done].
      unfold engine_turn. cbn [engine]. by rewrite Hengine.
  - cbn [run_system foldl engine_turns omap list_omap].
    fold (run_system exchange_names exchanges schedule (consumer_turn sys)).
    fold (engine_turns schedule).
    unfold consumer_turn. rewrite Hengine, queue_of_status_with_queue.
    destruct queue as [|batch rest].
    + apply (IH _ _ []); by rewrite ?Hengine.
    + apply (IH _ _ rest).
      * cbn [engine]. apply status_with_queue_twice.
      * cbn [printed]. by rewrite <- app_assoc.
Qed.

(** However the turns of the engine loop and of the consumer are
    interleaved, the batches the consumer has printed followed by those
    still waiting on the queue are the batches the engine puts when it runs
    alone on the same environments, in the same order: none is lost, none
    is printed twice, none overtakes another.  The price table, the output
    and the remembered print time of the engine are what they are without a
    consumer. *)
Theorem consumer_gets_every_batch_in_order exchange_names exchanges schedule st :
  printed (run_system exchange_names exchanges schedule
             {| engine := Running st; printed := [] |})
  ++ high_spread_queue
       (state_of (engine (run_system exchange_names exchanges schedule
                            {| engine := Running st; printed := [] |})))
  = high_spread_queue
      (state_of (run_loop exchange_names exchanges (engine_turns schedule) st)) ∧
  with_queue [] (state_of (engine (run_system exchange_names exchanges schedule
                                     {| engine := Running st; printed := [] |})))
  = with_queue []
      (state_of (run_loop exchange_names exchanges (engine_turns schedule) st)).
Proof.
  destruct (run_system_resume exchange_names exchanges schedule
              {| engine := Running st; printed := [] |} (Running st)
              (high_spread_queue st)) as (queue' & Hengine & Hqueue).
  - simpl. by destruct st.
  - done.
  - cbn [resume] in *. rewrite Hengine, queue_of_status_with_queue.
    split; [exact Hqueue|].
    by destruct (run_loop exchange_names exchanges (engine_turns schedule) st).
Qed.

End SystemProperties.

(** ** The price table under the loop *)

Section PriceTableOfTheLoop.
Context {order : IterOrder}.






End PriceTableOfTheLoop.


